(** * Verification of the Keedam AI quiz application (src/app.py)

    Shallow embedding of the two parts of [src/app.py] that the spec talks
    about:
    - the extraction gateway [parse_quiz_file_with_ai] (lines 30-92): the
      reply-cleaning step, [json.loads] and the error path;
    - the Streamlit session of [main] (lines 97-204): the [st.session_state]
      fields, the callbacks and buttons, and the score.

    Python [str] values are sequences of code points, modelled as [list N]. *)

From Stdlib Require Import Ascii String ZArith Lia.
From Stdlib Require Import Decimal DecimalNat.
From stdpp Require Import base list gmap.

Set Warnings "-register-all".
Open Scope N_scope.

(** ** Text *)

Definition text := list N.

(** Code points of an ASCII string literal. *)
Definition txt (s : string) : text := map N_of_ascii (list_ascii_of_string s).

(** The same, writing the double quote of JSON texts as an apostrophe. *)
Definition qtxt (s : string) : text :=
  map (fun a => if Ascii.eqb a "'"%char then 34 else N_of_ascii a)
      (list_ascii_of_string s).

Definition QUOTE : N := 34.      (* double quote *)
Definition BACKSLASH : N := 92.  (* backslash *)
Definition SLASH : N := 47.      (* / *)
Definition LBRACE : N := 123.    (* { *)
Definition RBRACE : N := 125.    (* } *)
Definition LBRACKET : N := 91.   (* [ *)
Definition RBRACKET : N := 93.   (* ] *)
Definition COMMA : N := 44.      (* , *)
Definition COLON : N := 58.      (* : *)
Definition MINUS : N := 45.      (* - *)
Definition PLUS : N := 43.       (* + *)
Definition DOT : N := 46.        (* . *)
Definition SPACE : N := 32.
Definition BACKTICK : N := 96.   (* ` *)
Definition BOM : N := 65279.     (* U+FEFF *)

(** [str.isspace] (the characters [str.strip()] removes): the ASCII
    separators and the Unicode white space of CPython's
    [Py_UNICODE_ISSPACE]. *)
Definition py_isspace (c : N) : bool :=
  ((9 <=? c) && (c <=? 13)) || ((28 <=? c) && (c <=? 32)) ||
  (c =? 133) || (c =? 160) || (c =? 5760) ||
  ((8192 <=? c) && (c <=? 8202)) || (c =? 8232) || (c =? 8233) ||
  (c =? 8239) || (c =? 8287) || (c =? 12288).

(** [str.lstrip()], [str.rstrip()] and [str.strip()] without argument. *)
Fixpoint py_lstrip (s : text) : text :=
  match s with
  | [] => []
  | c :: s' => if py_isspace c then py_lstrip s' else s
  end.

Definition py_rstrip (s : text) : text := rev (py_lstrip (rev s)).

Definition py_strip (s : text) : text := py_rstrip (py_lstrip s).

(** [is_prefix p s]: [s.startswith(p)]. *)
Fixpoint is_prefix (p s : text) : bool :=
  match p, s with
  | [], _ => true
  | a :: p', b :: s' => (a =? b) && is_prefix p' s'
  | _ :: _, [] => false
  end.

(** [str.replace(old, new)] for a non-empty [old]: scan from the left,
    replace each occurrence and resume after it (occurrences do not
    overlap, the replacement is not rescanned).  [fuel] bounds the scan;
    [py_replace] gives it the length of the subject. *)
Fixpoint replace_fuel (fuel : nat) (old new s : text) : text :=
  match fuel with
  | O => s
  | S f =>
      match s with
      | [] => []
      | c :: s' =>
          if is_prefix old s
          then new ++ replace_fuel f old new (drop (length old) s)
          else c :: replace_fuel f old new s'
      end
  end.

Definition py_replace (old new s : text) : text :=
  replace_fuel (length s) old new s.

Definition FENCE_JSON : text := txt "```json".
Definition FENCE : text := txt "```".

(** Line 76: [json_text = response.text.strip().replace(...).replace(...)],
    removing first every [```json], then every [```], with the empty string. *)
Definition clean_reply (reply : text) : text :=
  py_replace FENCE [] (py_replace FENCE_JSON [] (py_strip reply)).

(** [p in s] for strings: [p] occurs somewhere in [s]. *)
Fixpoint py_contains (p s : text) : bool :=
  is_prefix p s || match s with [] => false | _ :: s' => py_contains p s' end.

(** ** [json.loads]

    Model of CPython's JSON decoder as [json.loads] runs it here (the C
    scanner [scan_once_unicode], strict mode).  A number is kept as its
    lexeme (Python turns it into an [int] or a [float]); an object keeps
    its members in text order (Python builds a [dict] from them). *)

Inductive json : Type :=
| JNull
| JBool (b : bool)
| JNum (lexeme : text)
| JStr (s : text)
| JArr (items : list json)
| JObj (members : list (text * json)).

(** [IS_WHITESPACE] of the scanner: space, tab, newline, carriage return. *)
Definition is_json_ws (c : N) : bool :=
  (c =? 32) || (c =? 9) || (c =? 10) || (c =? 13).

Fixpoint skip_ws (s : text) : text :=
  match s with
  | [] => []
  | c :: s' => if is_json_ws c then skip_ws s' else s
  end.

Definition is_digit (c : N) : bool := (48 <=? c) && (c <=? 57).

Definition hex_digit (c : N) : option N :=
  if is_digit c then Some (c - 48)
  else if (97 <=? c) && (c <=? 102) then Some (c - 87)
  else if (65 <=? c) && (c <=? 70) then Some (c - 55)
  else None.

Definition hex4 (a b c d : N) : option N :=
  match hex_digit a, hex_digit b, hex_digit c, hex_digit d with
  | Some x1, Some x2, Some x3, Some x4 =>
      Some (((x1 * 16 + x2) * 16 + x3) * 16 + x4)
  | _, _, _, _ => None
  end.

Definition is_high_surrogate (u : N) : bool := (55296 <=? u) && (u <=? 56319).
Definition is_low_surrogate (u : N) : bool := (56320 <=? u) && (u <=? 57343).
Definition join_surrogates (hi lo : N) : N :=
  65536 + (hi - 55296) * 1024 + (lo - 56320).

(** The one-character escapes: a backslash followed by a double quote, a
    backslash, a slash, or one of [b f n r t]. *)
Definition simple_escape (e : N) : option N :=
  if e =? QUOTE then Some QUOTE
  else if e =? BACKSLASH then Some BACKSLASH
  else if e =? SLASH then Some SLASH
  else if e =? 98 then Some 8
  else if e =? 102 then Some 12
  else if e =? 110 then Some 10
  else if e =? 114 then Some 13
  else if e =? 116 then Some 9
  else None.

Definition cons_str (c : N) (o : option (text * text)) : option (text * text) :=
  match o with
  | Some (x, r) => Some (c :: x, r)
  | None => None
  end.

(** [scanstring_unicode] (strict): the text after the opening quote is
    decoded up to the closing quote; the result is the decoded string and
    the text after the quote.  A control character (below U+0020), an
    unknown escape, a bad [\uXXXX] or the end of the text is an error.  A
    high surrogate escape followed by a low surrogate escape is joined into
    one code point; otherwise it stays a lone code unit and scanning goes on
    after it (CPython additionally fails early on a truncated second
    escape; the string is unterminated there, so the result is the same
    failure). *)
Fixpoint scan_string (s : text) : option (text * text) :=
  match s with
  | [] => None
  | c :: s1 =>
      if c =? QUOTE then Some ([], s1)
      else if c =? BACKSLASH then
        match s1 with
        | [] => None
        | e :: s2 =>
            if e =? 117 then
              match s2 with
              | h1 :: h2 :: h3 :: h4 :: s3 =>
                  match hex4 h1 h2 h3 h4 with
                  | None => None
                  | Some u =>
                      if is_high_surrogate u then
                        match s3 with
                        | b :: v :: g1 :: g2 :: g3 :: g4 :: s4 =>
                            if (b =? BACKSLASH) && (v =? 117) then
                              match hex4 g1 g2 g3 g4 with
                              | Some lo =>
                                  if is_low_surrogate lo
                                  then cons_str (join_surrogates u lo) (scan_string s4)
                                  else cons_str u (scan_string s3)
                              | None => cons_str u (scan_string s3)
                              end
                            else cons_str u (scan_string s3)
                        | _ => cons_str u (scan_string s3)
                        end
                      else cons_str u (scan_string s3)
                  end
              | _ => None
              end
            else
              match simple_escape e with
              | Some d => cons_str d (scan_string s2)
              | None => None
              end
        end
      else if c <? 32 then None
      else cons_str c (scan_string s1)
  end.

Fixpoint span_digits (s : text) : text * text :=
  match s with
  | [] => ([], [])
  | c :: s' =>
      if is_digit c then let '(ds, r) := span_digits s' in (c :: ds, r)
      else ([], s)
  end.

(** [_match_number_unicode]: [-?(0|[1-9][0-9]* )(\.[0-9]+)?([eE][-+]?[0-9]+)?],
    the exponent being given up when no digit follows. *)
Definition scan_int (s : text) : option (text * text) :=
  match s with
  | [] => None
  | c :: s' =>
      if c =? 48 then Some ([c], s')
      else if is_digit c then let '(ds, r) := span_digits s' in Some (c :: ds, r)
      else None
  end.

Definition scan_frac (s : text) : text * text :=
  match s with
  | c :: d :: s' =>
      if (c =? DOT) && is_digit d
      then let '(ds, r) := span_digits s' in (c :: d :: ds, r)
      else ([], s)
  | _ => ([], s)
  end.

Definition scan_exp (s : text) : text * text :=
  match s with
  | [] => ([], [])
  | e :: s1 =>
      if (e =? 101) || (e =? 69) then
        let '(sg, s2) :=
          match s1 with
          | c :: s1' => if (c =? MINUS) || (c =? PLUS) then ([c], s1') else ([], s1)
          | [] => ([], [])
          end in
        match span_digits s2 with
        | ([], _) => ([], s)
        | (ds, r) => (e :: sg ++ ds, r)
        end
      else ([], s)
  end.

Definition scan_number (s : text) : option (text * text) :=
  let '(sg, s1) :=
    match s with
    | c :: s' => if c =? MINUS then ([c], s') else ([], s)
    | [] => ([], [])
    end in
  match scan_int s1 with
  | None => None
  | Some (i, r1) =>
      let '(f, r2) := scan_frac r1 in
      let '(e, r3) := scan_exp r2 in
      Some (sg ++ i ++ f ++ e, r3)
  end.

Fixpoint strip_prefix (p s : text) : option text :=
  match p with
  | [] => Some s
  | a :: p' =>
      match s with
      | b :: s' => if a =? b then strip_prefix p' s' else None
      | [] => None
      end
  end.

(** The named constants of [scan_once_unicode]. *)
Definition scan_constant (s : text) : option (json * text) :=
  match strip_prefix (txt "null") s with
  | Some r => Some (JNull, r)
  | None =>
  match strip_prefix (txt "true") s with
  | Some r => Some (JBool true, r)
  | None =>
  match strip_prefix (txt "false") s with
  | Some r => Some (JBool false, r)
  | None =>
  match strip_prefix (txt "NaN") s with
  | Some r => Some (JNum (txt "NaN"), r)
  | None =>
  match strip_prefix (txt "Infinity") s with
  | Some r => Some (JNum (txt "Infinity"), r)
  | None =>
  match strip_prefix (txt "-Infinity") s with
  | Some r => Some (JNum (txt "-Infinity"), r)
  | None => None
  end end end end end end.

(** [scan_once_unicode], [_parse_array_unicode] and
    [_parse_object_unicode].  [parse_value] reads one value at the head of
    its input and returns it with the rest; [fuel] bounds the recursion
    ([json_loads] gives enough of it, see [parse_value_fuel_stable]). *)
Fixpoint parse_value (fuel : nat) (s : text) {struct fuel} : option (json * text) :=
  match fuel with
  | O => None
  | S f =>
      match s with
      | [] => None
      | c :: r =>
          if c =? QUOTE then
            match scan_string r with
            | Some (x, r') => Some (JStr x, r')
            | None => None
            end
          else if c =? LBRACE then
            match skip_ws r with
            | d :: r' => if d =? RBRACE then Some (JObj [], r')
                         else parse_members f (skip_ws r) []
            | [] => None
            end
          else if c =? LBRACKET then
            match skip_ws r with
            | d :: r' => if d =? RBRACKET then Some (JArr [], r')
                         else parse_elements f (skip_ws r) []
            | [] => None
            end
          else
            match scan_constant s with
            | Some res => Some res
            | None =>
                match scan_number s with
                | Some (lx, r') => Some (JNum lx, r')
                | None => None
                end
            end
      end
  end
with parse_elements (fuel : nat) (s : text) (acc : list json) {struct fuel}
    : option (json * text) :=
  match fuel with
  | O => None
  | S f =>
      match parse_value f s with
      | None => None
      | Some (v, r) =>
          match skip_ws r with
          | c :: r' =>
              if c =? RBRACKET then Some (JArr (rev (v :: acc)), r')
              else if c =? COMMA then parse_elements f (skip_ws r') (v :: acc)
              else None
          | [] => None
          end
      end
  end
with parse_members (fuel : nat) (s : text) (acc : list (text * json)) {struct fuel}
    : option (json * text) :=
  match fuel with
  | O => None
  | S f =>
      match s with
      | c :: r =>
          if c =? QUOTE then
            match scan_string r with
            | None => None
            | Some (k, r1) =>
                match skip_ws r1 with
                | d :: r2 =>
                    if d =? COLON then
                      match parse_value f (skip_ws r2) with
                      | None => None
                      | Some (v, r3) =>
                          match skip_ws r3 with
                          | e :: r4 =>
                              if e =? RBRACE then Some (JObj (rev ((k, v) :: acc)), r4)
                              else if e =? COMMA then parse_members f (skip_ws r4) ((k, v) :: acc)
                              else None
                          | [] => None
                          end
                      end
                    else None
                | [] => None
                end
            end
          else None
      | [] => None
      end
  end.

(** [json.loads(s)]: a leading byte order mark is refused; white space is
    skipped, one value is read, white space is skipped, and anything left
    is an error ([Extra data]). *)
Definition json_loads (s : text) : option json :=
  if is_prefix [BOM] s then None
  else
    let s1 := skip_ws s in
    match parse_value (2 * length s1)%nat s1 with
    | Some (v, r) =>
        match skip_ws r with
        | [] => Some v
        | _ :: _ => None
        end
    | None => None
    end.

(** ** The extraction gateway, [parse_quiz_file_with_ai] (lines 30-92) *)

(** The Streamlit messages the function shows, in order. *)
Inductive ui_msg : Type :=
| MsgConfigError            (* configure_ai failed: st.error (and st.info) *)
| MsgAnalyzing              (* st.info, line 40 *)
| MsgFound (n : nat)        (* st.success with len(questions), line 82 *)
| MsgAnalysisError          (* first st.error of the except block, line 86 *)
| MsgDetails                (* st.error with the exception, line 87 *)
| MsgRawReply (raw : text). (* st.code(response.text), line 91 *)

(** Outcome of the calls to the model service (lines 44-73). *)
Inductive call_outcome : Type :=
| CallRaised                (* upload_file or generate_content raised *)
| ReplyNoText               (* they returned, but reading response.text
                               raises ValueError (a reply with no text
                               part, e.g. a blocked candidate) *)
| Reply (raw : text).       (* they returned; raw is response.text *)

(** [len(questions)] on what [json.loads] returned: a [TypeError] (here
    [None]) for [None], booleans and numbers; a dict counts its keys. *)
Definition py_len (v : json) : option nat :=
  match v with
  | JArr l => Some (length l)
  | JStr x => Some (length x)
  | JObj kvs => Some (length (remove_dups (map fst kvs)))
  | _ => None
  end.

(** [configured] is the result of [configure_ai()] (lines 15-28).  The
    result pairs the messages shown with the returned value, [None] when
    an exception leaves the function instead.  The [except] block catches
    a failing call, a failing [response.text], a failing [json.loads] and
    a failing [len]; it shows the raw reply when there is one and returns
    [[]].  When [response.text] itself raised, the [hasattr(response,
    'text')] of line 90 evaluates it again: the [ValueError] is not an
    [AttributeError], so it leaves the [except] block and the function. *)
Definition parse_quiz_file_with_ai (configured : bool) (call : call_outcome)
    : list ui_msg * option json :=
  if negb configured then ([MsgConfigError], Some (JArr []))
  else
    match call with
    | CallRaised => ([MsgAnalyzing; MsgAnalysisError; MsgDetails], Some (JArr []))
    | ReplyNoText => ([MsgAnalyzing; MsgAnalysisError; MsgDetails], None)
    | Reply raw =>
        let failed := ([MsgAnalyzing; MsgAnalysisError; MsgDetails; MsgRawReply raw], Some (JArr [])) in
        match json_loads (clean_reply raw) with
        | Some questions =>
            match py_len questions with
            | Some n => ([MsgAnalyzing; MsgFound n], Some questions)
            | None => failed
            end
        | None => failed
        end
    end.

(** The value stored in [st.session_state.questions] (line 121); [None]
    when the call raised and nothing is stored. *)
Definition extracted_store (configured : bool) (call : call_outcome) : option json :=
  snd (parse_quiz_file_with_ai configured call).

(** [q[k]] on a decoded object: the value of the last member named [k]
    (a Python dict keeps the last of duplicate keys). *)
Definition json_field (k : text) (v : json) : option json :=
  match v with
  | JObj kvs =>
      match find (fun kv => bool_decide (kv.1 = k)) (rev kvs) with
      | Some kv => Some kv.2
      | None => None
      end
  | _ => None
  end.

(** The QuestionRecord invariant of the spec (section 3), on a stored
    element: its [answer] is a string equal to one of its [options]. *)
Definition satisfies_record_invariant (v : json) : bool :=
  match json_field (txt "answer") v, json_field (txt "options") v with
  | Some (JStr a), Some (JArr os) =>
      existsb (fun o => match o with JStr x => bool_decide (x = a) | _ => false end) os
  | _, _ => false
  end.

(** ** The quiz session of [main] (lines 97-204) *)

Close Scope N_scope.

(** A stored question, read through its keys [question], [options] and
    [answer] (lines 152, 167, 169, 189). *)
Record question_record : Type := mk_question {
  question : text;
  options : list text;
  answer : text
}.

(** The values of [st.session_state.state]: [initial], [quiz_started],
    [show_feedback], [finished]. *)
Inductive phase : Type := Initial | QuizStarted | ShowFeedback | Finished.

(** [st.session_state]: [state], [questions], [current_question] (a Python
    int) and [user_answers] (a dict from int to the chosen option). *)
Record session : Type := mk_session {
  state : phase;
  questions : list question_record;
  current_question : Z;
  user_answers : gmap Z text
}.

(** Lines 101-105. *)
Definition init_session : session := mk_session Initial [] 0%Z ∅.

(** [l[i]] for a Python int [i] (a negative index counts from the end);
    [None] is an [IndexError]. *)
Definition py_index {A} (l : list A) (i : Z) : option A :=
  if (0 <=? i)%Z then l !! Z.to_nat i
  else if (0 <=? Z.of_nat (length l) + i)%Z then l !! Z.to_nat (Z.of_nat (length l) + i)
  else None.

(** Truth value of a [str]: non-empty. *)
Definition py_truthy (t : text) : bool :=
  match t with [] => false | _ :: _ => true end.

(** Line 169: [valid_options = [opt for opt in q_data["options"] if opt]]. *)
Definition valid_options (q : question_record) : list text :=
  List.filter py_truthy (options q).

(** Lines 112-125, after [parse_quiz_file_with_ai] returned [store].
    The store is read as the list of records that the gateway returned;
    a returned value that is not a list of records with the three keys (a
    dict, a string, a record lacking a key) is outside this model, and so
    is a gateway that raised. *)
Definition upload (s : session) (store : list question_record) : session :=
  match store with
  | [] => mk_session (state s) store (current_question s) (user_answers s)
  | _ :: _ => mk_session QuizStarted store (current_question s) (user_answers s)
  end.

(** Lines 177-179: the form is submitted with [user_choice]. *)
Definition submit_answer (s : session) (user_choice : text) : session :=
  mk_session ShowFeedback (questions s) (current_question s)
    (<[current_question s := user_choice]> (user_answers s)).

(** Lines 196-203: the Next Question / Finish Quiz button. *)
Definition next_question (s : session) : session :=
  let q_index := current_question s in
  let is_last_question := (q_index + 1 =? Z.of_nat (length (questions s)))%Z in
  if is_last_question
  then mk_session Finished (questions s) (current_question s) (user_answers s)
  else mk_session QuizStarted (questions s) (current_question s + 1)%Z (user_answers s).

(** [str(n)] for a non-negative int. *)
Fixpoint uint_text (d : Decimal.uint) : text :=
  match d with
  | Decimal.Nil => []
  | Decimal.D0 d => 48%N :: uint_text d
  | Decimal.D1 d => 49%N :: uint_text d
  | Decimal.D2 d => 50%N :: uint_text d
  | Decimal.D3 d => 51%N :: uint_text d
  | Decimal.D4 d => 52%N :: uint_text d
  | Decimal.D5 d => 53%N :: uint_text d
  | Decimal.D6 d => 54%N :: uint_text d
  | Decimal.D7 d => 55%N :: uint_text d
  | Decimal.D8 d => 56%N :: uint_text d
  | Decimal.D9 d => 57%N :: uint_text d
  end.

Definition str_of_nat (n : nat) : text := uint_text (Nat.to_uint n).

(** Line 162: the selectbox offers [f"Question {i+1}"] for [i] in
    [range(len(questions))]. *)
Definition jumper_label (i : nat) : text := txt "Question " ++ str_of_nat (i + 1).

Definition jumper_options (n : nat) : list text := map jumper_label (seq 0 n).

(** [t.split(sep)] for a one-character separator. *)
Fixpoint split_on (sep : N) (t : text) : list text :=
  match t with
  | [] => [[]]
  | c :: t' =>
      if (c =? sep)%N then [] :: split_on sep t'
      else
        match split_on sep t' with
        | w :: ws => (c :: w) :: ws
        | [] => [[c]]
        end
  end.

Definition digit_uint (c : N) (d : Decimal.uint) : option Decimal.uint :=
  if (c =? 48)%N then Some (Decimal.D0 d)
  else if (c =? 49)%N then Some (Decimal.D1 d)
  else if (c =? 50)%N then Some (Decimal.D2 d)
  else if (c =? 51)%N then Some (Decimal.D3 d)
  else if (c =? 52)%N then Some (Decimal.D4 d)
  else if (c =? 53)%N then Some (Decimal.D5 d)
  else if (c =? 54)%N then Some (Decimal.D6 d)
  else if (c =? 55)%N then Some (Decimal.D7 d)
  else if (c =? 56)%N then Some (Decimal.D8 d)
  else if (c =? 57)%N then Some (Decimal.D9 d)
  else None.

Fixpoint uint_of_text (t : text) : option Decimal.uint :=
  match t with
  | [] => Some Decimal.Nil
  | c :: t' =>
      match uint_of_text t' with
      | Some d => digit_uint c d
      | None => None
      end
  end.

(** [int(t)] on a string of ASCII digits, its decimal value; any other
    string (empty, signed, padded) is reported as a [ValueError].  The
    callback below only applies it to parts of the selectbox labels. *)
Definition py_int (t : text) : option Z :=
  match t with
  | [] => None
  | _ :: _ =>
      match uint_of_text t with
      | Some d => Some (Z.of_nat (Nat.of_uint d))
      | None => None
      end
  end.

(** Lines 154-160: the [on_change] callback of the selectbox, run with the
    newly selected label [question_jumper]; [None] is an exception. *)
Definition jump_to_question (s : session) (question_jumper : text) : option session :=
  match split_on SPACE question_jumper !! 1 with
  | None => None
  | Some part =>
      match py_int part with
      | None => None
      | Some k => Some (mk_session QuizStarted (questions s) (k - 1)%Z (user_answers s))
      end
  end.

(** Line 132: [sum(1 for i, q in enumerate(questions) if user_answers.get(i) == q['answer'])]. *)
Fixpoint score_from (answers : gmap Z text) (i : Z) (qs : list question_record) : nat :=
  match qs with
  | [] => 0
  | q :: qs' =>
      (if bool_decide (answers !! i = Some (answer q)) then 1 else 0)
      + score_from answers (i + 1)%Z qs'
  end.

Definition score (s : session) : nat := score_from (user_answers s) 0%Z (questions s).

(** Lines 183 and 190: [last_answer == correct_answer], the stored answer
    defaulting to the empty string. *)
Definition is_correct (last_answer : text) (q : question_record) : bool :=
  bool_decide (last_answer = answer q).

Definition feedback_correct (s : session) : option bool :=
  match py_index (questions s) (current_question s) with
  | Some q_data =>
      let last_answer := default [] (user_answers s !! current_question s) in
      Some (is_correct last_answer q_data)
  | None => None
  end.

(** [l.index(x)]: the first position of [x]. *)
Fixpoint py_list_index (x : text) (l : list text) : option nat :=
  match l with
  | [] => None
  | y :: l' =>
      if bool_decide (y = x) then Some 0
      else match py_list_index x l' with Some k => Some (S k) | None => None end
  end.

(** Lines 173-175: the radio button preselects the stored answer when it is
    one of the valid options, else the first option. *)
Definition previous_answer_index (s : session) (q_data : question_record) : nat :=
  let vo := valid_options q_data in
  match user_answers s !! current_question s with
  | Some previous_answer =>
      if existsb (fun o => bool_decide (o = previous_answer)) vo
      then default 0 (py_list_index previous_answer vo)
      else 0
  | None => 0
  end.

Definition preselected_answer (s : session) : option text :=
  match py_index (questions s) (current_question s) with
  | Some q_data => valid_options q_data !! previous_answer_index s q_data
  | None => None
  end.

(** Lines 183-187: on the feedback screen the disabled radio preselects
    [valid_options.index(last_answer)], falling back to the first option
    when [last_answer] (the stored answer, default the empty string) is not
    among them. *)
Definition feedback_default_index (s : session) (q_data : question_record) : nat :=
  let last_answer := default ([] : text) (user_answers s !! current_question s) in
  default 0 (py_list_index last_answer (valid_options q_data)).

Definition feedback_radio_shows (s : session) : option text :=
  match py_index (questions s) (current_question s) with
  | Some q_data => valid_options q_data !! feedback_default_index s q_data
  | None => None
  end.

(** Lines 136-144: the Review Your Answers expander.  For the question at
    position [i] of [enumerate(questions)], [user_answer] is
    [user_answers.get(i, "Not Answered")]; an entry records which branch of
    the [if] ran and the Markdown it shows (U+2705 and U+274C are the two
    marks); each entry is followed by a rule. *)
Definition NOT_ANSWERED : text := txt "Not Answered".
Definition CHECK_MARK : N := 9989%N.
Definition CROSS_MARK : N := 10060%N.

Definition review_entry (answers : gmap Z text) (i : nat) (q : question_record) : bool * text :=
  let user_answer := default NOT_ANSWERED (answers !! Z.of_nat i) in
  let correct_answer := answer q in
  let head := txt "**Q" ++ str_of_nat (i + 1) ++ txt ": " ++ question q ++ txt "**" ++ [10%N; 10%N] in
  if bool_decide (user_answer = correct_answer)
  then (true, head ++ CHECK_MARK :: txt " Your answer: `" ++ user_answer ++ txt "` (Correct)")
  else (false, head ++ CROSS_MARK :: txt " Your answer: `" ++ user_answer ++ txt "`" ++
               [10%N; 10%N] ++ txt "Correct answer: `" ++ correct_answer ++ txt "`").

Fixpoint review_from (answers : gmap Z text) (i : nat) (qs : list question_record)
    : list (bool * text) :=
  match qs with
  | [] => []
  | q :: qs' => review_entry answers i q :: review_from answers (S i) qs'
  end.

Definition review (s : session) : list (bool * text) :=
  review_from (user_answers s) 0 (questions s).

(** The Markdown blocks of the expander, in order. *)
Definition review_markdown (s : session) : list text :=
  flat_map (fun e => [snd e; txt "---"]) (review s).

(** The user's actions: uploading a file (with the store extracted from
    it), checking an answer chosen among the radio options, pressing Next
    Question / Finish Quiz, selecting a label in the selectbox, and Take a
    New Quiz (lines 145-147). *)
Inductive event : Type :=
| EUpload (store : list question_record)
| ESubmit (user_choice : text)
| ENext
| EJump (question_jumper : text)
| ENewQuiz.

(** A step is available only when the page shows the widget that produces
    it; the question screen first reads [questions[current_question]]
    (line 152).  A submit is a step for an offered option only: on a
    question without a non-empty option the radio button of line 175
    returns [None] and line 178 stores it, a path outside this model. *)
Inductive step : session -> event -> session -> Prop :=
| step_upload s store :
    state s = Initial ->
    step s (EUpload store) (upload s store)
| step_submit s q_data user_choice :
    state s = QuizStarted ->
    py_index (questions s) (current_question s) = Some q_data ->
    user_choice ∈ valid_options q_data ->
    step s (ESubmit user_choice) (submit_answer s user_choice)
| step_next s q_data :
    state s = ShowFeedback ->
    py_index (questions s) (current_question s) = Some q_data ->
    step s ENext (next_question s)
| step_jump s q_data sel s' :
    (state s = QuizStarted \/ state s = ShowFeedback) ->
    py_index (questions s) (current_question s) = Some q_data ->
    sel ∈ jumper_options (length (questions s)) ->
    jump_to_question s sel = Some s' ->
    step s (EJump sel) s'
| step_new_quiz s :
    state s = Finished ->
    step s ENewQuiz init_session.

Inductive run : session -> list event -> session -> Prop :=
| run_nil s : run s [] s
| run_cons s e s1 es s2 : step s e s1 -> run s1 es s2 -> run s (e :: es) s2.

Inductive reachable : session -> Prop :=
| reachable_init : reachable init_session
| reachable_step s e s' : reachable s -> step s e s' -> reachable s'.

Definition two_plus_two : question_record :=
  mk_question (txt "2+2?") [txt "3"; txt "4"] (txt "4").

(** The reply of the spec's scenario (section 8): one record whose answer
    matches no option. *)
Definition unmatched_answer_reply : text :=
  qtxt "[{'question':'Q','options':['A','B'],'answer':'C'}]".

(** Score as the spec words it: the number of indices [i] in
    [[0, len(questions))] with [answers[i] == questions[i].answerText]. *)
Definition count_correct (s : session) : nat :=
  length (List.filter
    (fun i : nat =>
       match questions s !! i with
       | Some q => bool_decide (user_answers s !! Z.of_nat i = Some (answer q))
       | None => false
       end)
    (seq 0 (length (questions s)))).

(** A record with the empty options taken out of its option list. *)
Definition drop_empty_options (q : question_record) : question_record :=
  mk_question (question q) (valid_options q) (answer q).

Definition map_questions (f : question_record -> question_record) (s : session) : session :=
  mk_session (state s) (map f (questions s)) (current_question s) (user_answers s).

(** A fenced reply whose strings hold triple backticks:
    question 'What does ```x``` do?', options 'x```' and 'y', answer 'x'. *)
Definition backticks_in_strings_reply : text :=
  qtxt "```json
[{'question':'What does ```x``` do?','options':['x```','y'],'answer':'x'}]
```".

(** ** The raw-text dump of [src/debug.py], [extract_and_save_raw_text] (lines 13-58) *)

Open Scope N_scope.

(** [p.rfind(c)]: the last position of [c] in [p], or -1. *)
Fixpoint py_rfind (c : N) (p : text) : Z :=
  match p with
  | [] => (-1)%Z
  | x :: p' =>
      let k := py_rfind c p' in
      if (0 <=? k)%Z then (k + 1)%Z else if x =? c then 0%Z else (-1)%Z
  end.

(** [os.path.splitext(p)] on POSIX ([genericpath._splitext] with [sep] "/",
    no [altsep] and [extsep] "."): the extension starts at the last dot
    when that dot lies after the last slash and some character other than
    a dot precedes it in the last component (the [while] loop that skips
    leading dots); otherwise it is empty. *)
Definition py_splitext (p : text) : text * text :=
  let sepIndex := py_rfind SLASH p in
  let dotIndex := py_rfind DOT p in
  if (sepIndex <? dotIndex)%Z then
    let filename := take (Z.to_nat (dotIndex - (sepIndex + 1))) (drop (Z.to_nat (sepIndex + 1)) p) in
    if existsb (fun c => negb (c =? DOT)) filename
    then (take (Z.to_nat dotIndex) p, drop (Z.to_nat dotIndex) p)
    else (p, [])
  else (p, []).

(** [c.lower()] on an ASCII code point. *)
Definition ascii_lower (c : N) : N := if (65 <=? c) && (c <=? 90) then c + 32 else c.

(** Lines 26, 29 and 33: [file_type = ext.lower()] compared with ".pdf" and
    ".docx".  Only two code points above U+007F have a lower case holding
    an ASCII character (U+0130 gives "i" and U+0307, U+212A gives "k"), and
    neither can make up one of these two literals, so the comparison is the
    one of the extension with its ASCII letters lowered. *)
Definition file_type_is (ext lit : text) : bool := bool_decide (map ascii_lower ext = lit).

(** [sep.join(parts)]. *)
Fixpoint py_join (sep : text) (parts : list text) : text :=
  match parts with
  | [] => []
  | [x] => x
  | x :: rest => x ++ sep ++ py_join sep rest
  end.

(** Line 31: ["\n".join(page.extract_text() for page in pdf.pages if
    page.extract_text())]; a page's [extract_text()] is [None] or a string
    (the two calls give the same one), and only the non-empty strings are
    kept. *)
Definition page_texts (pages : list (option text)) : list text :=
  flat_map (fun p => match p with
                     | Some t => if py_truthy t then [t] else []
                     | None => []
                     end) pages.

Definition pdf_full_text (pages : list (option text)) : text := py_join [10] (page_texts pages).

(** A page that the generator of line 31 skips: no text, or the empty one. *)
Definition page_blank (p : option text) : bool :=
  match p with Some t => negb (py_truthy t) | None => true end.

(** Line 35: ["\n".join([para.text for para in doc.paragraphs])]. *)
Definition docx_full_text (paragraphs : list text) : text := py_join [10] paragraphs.

(** What the function gets from the file system and the two readers: the
    result of [os.path.exists], the [extract_text()] of each page of the
    PDF and the text of each paragraph of the DOCX ([None] when opening or
    reading the document raises), and whether [open(JSON_OUTPUT_FILE, "w")]
    succeeds. *)
Record debug_env : Type := mk_debug_env {
  path_exists : bool;
  pdf_pages : option (list (option text));
  docx_paragraphs : option (list text);
  output_opens : bool
}.

(** [py_encode_basestring], the string encoder of [json.dump] with
    [ensure_ascii=False]: a double quote, a backslash and the control
    characters are escaped (the five usual ones by letter, the others as
    [\u00XX] with lowercase hex digits); every other code point is written
    as it is. *)
Definition hex_lower (d : N) : N := if d <? 10 then 48 + d else 87 + d.

Definition escape_char (c : N) : text :=
  if c =? QUOTE then [BACKSLASH; QUOTE]
  else if c =? BACKSLASH then [BACKSLASH; BACKSLASH]
  else if c =? 8 then [BACKSLASH; 98]
  else if c =? 12 then [BACKSLASH; 102]
  else if c =? 10 then [BACKSLASH; 110]
  else if c =? 13 then [BACKSLASH; 114]
  else if c =? 9 then [BACKSLASH; 116]
  else if c <? 32 then [BACKSLASH; 117; 48; 48; hex_lower (c / 16); hex_lower (c mod 16)]
  else [c].

Definition encode_basestring (s : text) : text := QUOTE :: flat_map escape_char s ++ [QUOTE].

(** Lines 42-49: [json.dump(output_data, f, indent=2, ensure_ascii=False)]
    of the dict [{"source_file": ..., "extracted_text": ...}]: the
    pure-Python [_iterencode_dict] with an indent of two spaces, the item
    separator "," and the key separator ": ". *)
Definition dump_output_data (source_file extracted_text : text) : text :=
  [LBRACE] ++ [10; 32; 32] ++
  encode_basestring (txt "source_file") ++ [COLON; 32] ++ encode_basestring source_file ++
  [COMMA] ++ [10; 32; 32] ++
  encode_basestring (txt "extracted_text") ++ [COLON; 32] ++ encode_basestring extracted_text ++
  [10] ++ [RBRACE].

(** UTF-8, the encoding of the output file, has no encoding of a lone
    surrogate: writing one raises [UnicodeEncodeError]. *)
Definition is_surrogate (c : N) : bool := (55296 <=? c) && (c <=? 57343).

(** The outcome of a run: the file is missing (lines 18-22); its type is
    not supported (lines 37-39; the message shows the extension in lower
    case); the output file was written with [contents] (lines 48-53); or an
    exception was caught and reported (lines 55-58; what a failed write
    left in the output file is not modelled). *)
Inductive debug_outcome : Type :=
| DNotFound
| DUnsupported (ext : text)
| DSaved (contents : text)
| DFailed.

(** Lines 29-39: the text of a supported document; [None] for an
    unsupported type, [Some None] when reading raises. *)
Definition read_full_text (env : debug_env) (file_type : text) : option (option text) :=
  if file_type_is file_type (txt ".pdf") then Some (option_map pdf_full_text (pdf_pages env))
  else if file_type_is file_type (txt ".docx") then Some (option_map docx_full_text (docx_paragraphs env))
  else None.

Definition extract_and_save_raw_text (env : debug_env) (file_path : text) : debug_outcome :=
  if negb (path_exists env) then DNotFound
  else
    let file_type := snd (py_splitext file_path) in
    match read_full_text env file_type with
    | None => DUnsupported file_type
    | Some None => DFailed
    | Some (Some full_text) =>
        let contents := dump_output_data file_path full_text in
        if output_opens env && forallb (fun c => negb (is_surrogate c)) contents
        then DSaved contents
        else DFailed
    end.

Close Scope N_scope.

(** ** Notions used by the properties *)

(** [current_question] indexes the store. *)
Definition index_in_bounds (s : session) : Prop :=
  (0 <= current_question s < Z.of_nat (length (questions s)))%Z.

Definition session_inv (s : session) : Prop :=
  (state s = Initial -> questions s = [] /\ current_question s = 0%Z /\ user_answers s = ∅) /\
  (state s <> Initial -> index_in_bounds s) /\
  (state s = ShowFeedback -> is_Some (user_answers s !! current_question s)) /\
  (forall i a, user_answers s !! i = Some a ->
     exists q, py_index (questions s) i = Some q /\ a ∈ valid_options q).

(** The questions the review marks correct although the score does not
    count them: unanswered, with the text "Not Answered" as their answer. *)
Fixpoint unanswered_not_answered_from (answers : gmap Z text) (i : Z)
    (qs : list question_record) : nat :=
  match qs with
  | [] => 0
  | q :: qs' =>
      (if bool_decide (answers !! i = None /\ answer q = NOT_ANSWERED) then 1 else 0)
      + unanswered_not_answered_from answers (i + 1)%Z qs'
  end.

Definition unanswered_not_answered (s : session) : nat :=
  unanswered_not_answered_from (user_answers s) 0%Z (questions s).

(** The events of a running quiz. *)
Definition is_quiz_action (e : event) : bool :=
  match e with
  | ESubmit _ | ENext | EJump _ => true
  | EUpload _ | ENewQuiz => false
  end.

(** A two-question store and the sessions of the spec's scenarios. *)
Definition scenario_store : list question_record :=
  [two_plus_two; mk_question (txt "3+3?") [txt "6"; txt "7"] (txt "6")].

Definition scenario_after_upload : session := upload init_session [two_plus_two].
Definition scenario_after_submit : session := submit_answer scenario_after_upload (txt "4").

(** For each question in turn: check its answer, then press Next Question
    (Finish Quiz on the last one). *)
Definition answer_every_question (qs : list question_record) : list event :=
  flat_map (fun q => [ESubmit (answer q); ENext]) qs.

Definition scenario_start : session := upload init_session scenario_store.

Definition scenario_end : session :=
  next_question (submit_answer (next_question (submit_answer scenario_start (txt "4"))) (txt "6")).

(** [r ++ w] in place of the rest [r] of a successful scan. *)
Definition app_rest {A : Type} (w : text) (o : option (A * text)) : option (A * text) :=
  match o with
  | Some (v, r) => Some (v, r ++ w)
  | None => None
  end.

(** [r] is what is left of [s] after a non-empty prefix. *)
Definition consumed (s r : text) : Prop := exists m, m <> [] /\ s = m ++ r.

(** * Properties *)

(** ** The model on sample inputs *)

Example clean_reply_fenced :
  clean_reply (txt "  ```json
[1]
```  ") = txt "
[1]
".
Proof. reflexivity. Qed.

Example json_loads_record :
  json_loads (qtxt "[{'question':'Q','options':['A','B'],'answer':'C'}]") =
  Some (JArr [JObj [(txt "question", JStr (txt "Q"));
                    (txt "options", JArr [JStr (txt "A"); JStr (txt "B")]);
                    (txt "answer", JStr (txt "C"))]]).
Proof. reflexivity. Qed.

Example jump_label_12 :
  jump_to_question init_session (jumper_label 11) =
  Some (mk_session QuizStarted [] 11%Z ∅).
Proof. reflexivity. Qed.

Example scenario_correct :
  let s0 := upload init_session [two_plus_two] in
  let s1 := submit_answer s0 (txt "4") in
  let s2 := next_question s1 in
  feedback_correct s1 = Some true /\ state s2 = Finished /\ score s2 = 1.
Proof. vm_compute. auto. Qed.

(** ** Gateway *)

(** C1 (counterexample): the record of the spec's scenario, whose answer
    [C] is not among its options [A] and [B], is not dropped: the store is
    not empty and holds a record that breaks the QuestionRecord invariant. *)
Lemma C1_unmatched_answer_is_stored :
  extracted_store true (Reply unmatched_answer_reply) <> Some (JArr []) /\
  exists r, extracted_store true (Reply unmatched_answer_reply) = Some (JArr [r]) /\
            satisfies_record_invariant r = false.
Proof.
  split.
  - vm_compute. discriminate.
  - eexists. split; [vm_compute; reflexivity | vm_compute; reflexivity].
Qed.

(** C1 (as amended): the gateway validates nothing: whenever the cleaned
    reply parses as a JSON array, it reports and returns every element of
    that array unchanged. *)
Theorem gateway_stores_every_element (raw : text) (items : list json) :
  json_loads (clean_reply raw) = Some (JArr items) ->
  parse_quiz_file_with_ai true (Reply raw) =
    ([MsgAnalyzing; MsgFound (length items)], Some (JArr items)).
Proof.
  intros H. unfold parse_quiz_file_with_ai. simpl. rewrite H. reflexivity.
Qed.

Lemma gateway_stores_every_element_witness :
  json_loads (clean_reply unmatched_answer_reply) =
    Some (JArr [JObj [(txt "question", JStr (txt "Q"));
                      (txt "options", JArr [JStr (txt "A"); JStr (txt "B")]);
                      (txt "answer", JStr (txt "C"))]]) /\
  parse_quiz_file_with_ai true (Reply unmatched_answer_reply) =
    ([MsgAnalyzing; MsgFound 1],
     Some (JArr [JObj [(txt "question", JStr (txt "Q"));
                       (txt "options", JArr [JStr (txt "A"); JStr (txt "B")]);
                       (txt "answer", JStr (txt "C"))]])).
Proof.
  split.
  - vm_compute. reflexivity.
  - apply (gateway_stores_every_element unmatched_answer_reply
      [JObj [(txt "question", JStr (txt "Q"));
             (txt "options", JArr [JStr (txt "A"); JStr (txt "B")]);
             (txt "answer", JStr (txt "C"))]]).
    vm_compute. reflexivity.
Defined.




(** ** Score *)

Lemma score_from_filter (a : gmap Z text) (qs : list question_record) (k : nat) :
  score_from a (Z.of_nat k) qs =
  length (List.filter
    (fun i : nat =>
       match qs !! (i - k) with
       | Some q => bool_decide (a !! Z.of_nat i = Some (answer q))
       | None => false
       end)
    (seq k (length qs))).
Proof.
  revert k. induction qs as [|q qs IH]; intros k; [reflexivity|].
  simpl. rewrite Nat.sub_diag. simpl.
  replace (Z.of_nat k + 1)%Z with (Z.of_nat (S k)) by lia.
  rewrite IH.
  assert (Hext : List.filter
    (fun i : nat =>
       match qs !! (i - S k) with
       | Some q0 => bool_decide (a !! Z.of_nat i = Some (answer q0))
       | None => false
       end) (seq (S k) (length qs)) =
    List.filter
    (fun i : nat =>
       match (q :: qs) !! (i - k) with
       | Some q0 => bool_decide (a !! Z.of_nat i = Some (answer q0))
       | None => false
       end) (seq (S k) (length qs))).
  { apply List.filter_ext_in. intros i Hi. apply in_seq in Hi.
    replace (i - k) with (S (i - S k)) by lia. reflexivity. }
  rewrite Hext. destruct (bool_decide _); reflexivity.
Qed.

(** C2: the score is the number of indices [i] below [len(questions)] whose
    stored answer equals [questions[i].answerText]; an index without a
    stored answer is not counted. *)
Theorem score_counts_correct_answers (s : session) :
  score s = count_correct s.
Proof.
  unfold score, count_correct.
  rewrite (score_from_filter _ _ 0). f_equal.
  apply List.filter_ext_in. intros i _. rewrite Nat.sub_0_r. reflexivity.
Qed.

(** ** Empty options *)

Lemma py_index_map {A B} (f : A -> B) (l : list A) (i : Z) :
  py_index (map f l) i = option_map f (py_index l i).
Proof.
  unfold py_index. rewrite length_map.
  destruct (0 <=? i)%Z; [apply list_lookup_fmap|].
  destruct (0 <=? _)%Z; [apply list_lookup_fmap|reflexivity].
Qed.

Lemma score_from_map (f : question_record -> question_record) a i qs :
  (forall q, answer (f q) = answer q) ->
  score_from a i (map f qs) = score_from a i qs.
Proof.
  intros Hf. revert i. induction qs as [|q qs IH]; intros i; [reflexivity|].
  simpl. rewrite Hf, IH. reflexivity.
Qed.

(** C8: the options offered are the non-empty ones, in order; correctness
    compares the stored string with the answer string, so taking the empty
    options out of every record changes neither the feedback nor the
    score. *)
Theorem empty_options_filtered_correctness_unchanged :
  (forall q : question_record,
     valid_options q = List.filter py_truthy (options q) /\
     (forall o, In o (valid_options q) <-> In o (options q) /\ o <> [])) /\
  (forall (q : question_record) (last_answer : text),
     is_correct last_answer q = bool_decide (last_answer = answer q) /\
     is_correct last_answer (drop_empty_options q) = is_correct last_answer q) /\
  (forall s : session,
     feedback_correct (map_questions drop_empty_options s) = feedback_correct s /\
     score (map_questions drop_empty_options s) = score s).
Proof.
  split; [|split].
  - intros q. split; [reflexivity|]. intros o. unfold valid_options.
    rewrite filter_In. destruct o; simpl; intuition congruence.
  - intros q a. split; reflexivity.
  - intros s. split.
    + unfold feedback_correct, map_questions. simpl.
      rewrite py_index_map. destruct (py_index (questions s) _); reflexivity.
    + unfold score, map_questions. simpl. apply score_from_map. reflexivity.
Qed.

(** ** Selectbox labels *)

Lemma split_on_no_sep (sep : N) (t : text) :
  ~ In sep t -> split_on sep t = [t].
Proof.
  induction t as [|c t IH]; intros Hn; [reflexivity|].
  simpl. destruct (N.eqb_spec c sep) as [->|Hne].
  - exfalso. apply Hn. left. reflexivity.
  - rewrite IH; [reflexivity|]. intros Hin. apply Hn. right. exact Hin.
Qed.

Lemma split_on_sep (sep : N) (a b : text) :
  ~ In sep a -> split_on sep (a ++ sep :: b) = a :: split_on sep b.
Proof.
  induction a as [|c a IH]; intros Hn.
  - simpl. rewrite N.eqb_refl. reflexivity.
  - simpl. destruct (N.eqb_spec c sep) as [->|Hne].
    + exfalso. apply Hn. left. reflexivity.
    + rewrite IH; [reflexivity|]. intros Hin. apply Hn. right. exact Hin.
Qed.

Lemma uint_text_digits (d : Decimal.uint) (c : N) :
  In c (uint_text d) -> (48 <= c <= 57)%N.
Proof.
  induction d; simpl; intros H; try contradiction;
    destruct H as [<-|H]; auto; lia.
Qed.

Lemma uint_of_uint_text (d : Decimal.uint) : uint_of_text (uint_text d) = Some d.
Proof. induction d; simpl; try rewrite IHd; reflexivity. Qed.

Lemma py_int_str_of_nat (m : nat) :
  (0 < m)%nat -> py_int (str_of_nat m) = Some (Z.of_nat m).
Proof.
  intros Hm. unfold py_int, str_of_nat.
  rewrite uint_of_uint_text, DecimalNat.Unsigned.of_to.
  destruct (Nat.to_uint m) eqn:E; try reflexivity.
  exfalso. pose proof (DecimalNat.Unsigned.of_to m) as Ho. rewrite E in Ho.
  change (Nat.of_uint Decimal.Nil) with 0%nat in Ho. lia.
Qed.

Lemma jump_to_label (s : session) (i : nat) :
  jump_to_question s (jumper_label i) =
  Some (mk_session QuizStarted (questions s) (Z.of_nat i) (user_answers s)).
Proof.
  unfold jump_to_question, jumper_label.
  replace (txt "Question " ++ str_of_nat (i + 1))
    with (txt "Question" ++ SPACE :: str_of_nat (i + 1)) by reflexivity.
  rewrite split_on_sep by (vm_compute; intuition discriminate).
  rewrite split_on_no_sep.
  2:{ intros Hin. apply uint_text_digits in Hin. unfold SPACE in Hin. lia. }
  simpl. rewrite py_int_str_of_nat by lia.
  do 2 f_equal. lia.
Qed.

Lemma jumper_options_spec (n : nat) (sel : text) :
  sel ∈ jumper_options n <-> exists i, sel = jumper_label i /\ (i < n)%nat.
Proof.
  unfold jumper_options. rewrite list_elem_of_In, in_map_iff.
  split.
  - intros (i & <- & Hi). apply in_seq in Hi. exists i. split; [reflexivity|lia].
  - intros (i & -> & Hi). exists i. split; [reflexivity|]. apply in_seq. lia.
Qed.

Lemma jumper_label_in (n i : nat) : (i < n)%nat -> jumper_label i ∈ jumper_options n.
Proof. intros Hi. apply jumper_options_spec. eauto. Qed.

(** A selected label sets [current_question] to a question of the store. *)
Lemma step_jump_inv (s : session) (sel : text) (s' : session) :
  sel ∈ jumper_options (length (questions s)) ->
  jump_to_question s sel = Some s' ->
  exists i, (i < length (questions s))%nat /\
            s' = mk_session QuizStarted (questions s) (Z.of_nat i) (user_answers s).
Proof.
  intros Hsel Hj. apply jumper_options_spec in Hsel as (i & -> & Hi).
  rewrite jump_to_label in Hj. injection Hj as <-. eauto.
Qed.

Lemma py_index_nat {A} (l : list A) (i : nat) : py_index l (Z.of_nat i) = l !! i.
Proof.
  unfold py_index. replace (0 <=? Z.of_nat i)%Z with true by (symmetry; apply Z.leb_le; lia).
  rewrite Nat2Z.id. reflexivity.
Qed.

Lemma py_index_in_bounds {A} (l : list A) (i : Z) :
  (0 <= i < Z.of_nat (length l))%Z -> exists x, py_index l i = Some x.
Proof.
  intros Hi. replace i with (Z.of_nat (Z.to_nat i)) by lia.
  rewrite py_index_nat. apply lookup_lt_is_Some_2. lia.
Qed.

(** ** Invariant of the reachable sessions *)

Lemma session_inv_init : session_inv init_session.
Proof.
  unfold session_inv, index_in_bounds. simpl.
  repeat split; try congruence.
  intros i a H. rewrite lookup_empty in H. discriminate.
Qed.

Lemma session_inv_step (s : session) (e : event) (s' : session) :
  session_inv s -> step s e s' -> session_inv s'.
Proof.
  intros (Hini & Hb & Hfb & Hans) Hstep.
  unfold session_inv, index_in_bounds in *.
  destruct Hstep as [s store Hst|s q c Hst Hq Hc|s q Hst Hq|s q sel s1 Hst Hq Hsel Hj|s Hst].
  - destruct (Hini Hst) as (Hqs & Hcur & Hua).
    destruct store as [|q store]; simpl; rewrite Hua, Hcur;
      repeat split; simpl; try congruence; try lia;
      intros i a H; rewrite lookup_empty in H; discriminate.
  - assert (Hbs : (0 <= current_question s < Z.of_nat (length (questions s)))%Z)
      by (apply Hb; congruence).
    simpl. repeat split; try congruence; try lia.
    + rewrite lookup_insert_eq. eauto.
    + intros i a H. destruct (decide (i = current_question s)) as [->|Hne].
      * rewrite lookup_insert_eq in H. injection H as <-. eauto.
      * rewrite lookup_insert_ne in H by congruence. eauto.
  - assert (Hbs : (0 <= current_question s < Z.of_nat (length (questions s)))%Z)
      by (apply Hb; congruence).
    unfold next_question. simpl.
    destruct (Z.eqb_spec (current_question s + 1) (Z.of_nat (length (questions s)))) as [He|He];
      simpl; repeat split; try congruence; try lia; eauto.
  - destruct (step_jump_inv s sel s1 Hsel Hj) as (i & Hi & ->). simpl.
    repeat split; try congruence; try lia; eauto.
  - apply session_inv_init.
Qed.

Lemma reachable_session_inv (s : session) : reachable s -> session_inv s.
Proof.
  induction 1 as [|s e s' _ IH Hstep].
  - apply session_inv_init.
  - eapply session_inv_step; eauto.
Qed.

(** In every reachable session, a non-empty store has [current_question]
    on one of its questions. *)
Lemma reachable_index_in_bounds (s : session) :
  reachable s -> questions s <> [] -> index_in_bounds s.
Proof.
  intros Hr Hne. destruct (reachable_session_inv s Hr) as (Hini & Hb & _).
  destruct (state s) eqn:Hst; try (apply Hb; congruence).
  destruct (Hini eq_refl) as (Hqs & _). congruence.
Qed.

(** C3: on a non-empty store, checking an answer, Next Question / Finish
    Quiz and selecting a label keep [0 <= current_question < len(questions)]
    (and keep the store). *)
Theorem quiz_actions_keep_index_in_bounds (s : session) (e : event) (s' : session) :
  is_quiz_action e = true ->
  step s e s' ->
  index_in_bounds s ->
  questions s' = questions s /\ index_in_bounds s'.
Proof.
  unfold index_in_bounds. intros Ha Hstep Hb.
  destruct Hstep as [s store Hst|s q c Hst Hq Hc|s q Hst Hq|s q sel s1 Hst Hq Hsel Hj|s Hst];
    try discriminate Ha.
  - simpl. split; [reflexivity|lia].
  - unfold next_question.
    destruct (Z.eqb_spec (current_question s + 1) (Z.of_nat (length (questions s))));
      simpl; split; try reflexivity; lia.
  - destruct (step_jump_inv s sel s1 Hsel Hj) as (i & Hi & ->). simpl.
    split; [reflexivity|lia].
Qed.

Lemma quiz_actions_keep_index_in_bounds_witness :
  let s := mk_session ShowFeedback scenario_store 0%Z (<[0%Z := txt "4"]> ∅) in
  questions (next_question s) = questions s /\ index_in_bounds (next_question s).
Proof.
  apply (quiz_actions_keep_index_in_bounds
           (mk_session ShowFeedback scenario_store 0%Z (<[0%Z := txt "4"]> ∅)) ENext).
  - reflexivity.
  - apply (step_next _ two_plus_two); reflexivity.
  - unfold index_in_bounds. simpl. lia.
Defined.

(** ** Next Question / Finish Quiz *)

(** C4: in a reachable [show_feedback] session the feedback compares the
    stored answer with the question's answer string; the button moves to
    the next question while there is one, and to [finished] on the last
    question, keeping [current_question] on a question. *)
Theorem next_from_feedback (s : session) :
  reachable s ->
  state s = ShowFeedback ->
  exists q_data last_answer,
    py_index (questions s) (current_question s) = Some q_data /\
    user_answers s !! current_question s = Some last_answer /\
    feedback_correct s = Some (bool_decide (last_answer = answer q_data)) /\
    step s ENext (next_question s) /\
    ((current_question s + 1 < Z.of_nat (length (questions s)))%Z ->
       next_question s =
       mk_session QuizStarted (questions s) (current_question s + 1)%Z (user_answers s)) /\
    ((current_question s + 1 = Z.of_nat (length (questions s)))%Z ->
       next_question s =
       mk_session Finished (questions s) (current_question s) (user_answers s)) /\
    index_in_bounds (next_question s).
Proof.
  intros Hr Hst.
  destruct (reachable_session_inv s Hr) as (_ & Hb & Hfb & _).
  assert (Hbs : index_in_bounds s) by (apply Hb; congruence).
  destruct (py_index_in_bounds (questions s) (current_question s) Hbs) as [q Hq].
  destruct (Hfb Hst) as [a Ha].
  exists q, a. unfold index_in_bounds in *.
  split; [exact Hq|]. split; [exact Ha|].
  split. { unfold feedback_correct. rewrite Hq. unfold text in *. rewrite Ha. reflexivity. }
  split; [eapply step_next; eauto|].
  unfold next_question.
  destruct (Z.eqb_spec (current_question s + 1) (Z.of_nat (length (questions s)))) as [He|He];
    simpl; repeat split; intros; try reflexivity; lia.
Qed.

Lemma scenario_after_submit_reachable : reachable scenario_after_submit.
Proof.
  eapply reachable_step; [eapply reachable_step; [apply reachable_init|]|].
  - apply (step_upload init_session [two_plus_two]). reflexivity.
  - apply (step_submit scenario_after_upload two_plus_two (txt "4")); [reflexivity|reflexivity|].
    apply list_elem_of_In. simpl. tauto.
Qed.

Lemma next_from_feedback_witness :
  state scenario_after_submit = ShowFeedback /\
  exists q_data last_answer,
    py_index (questions scenario_after_submit) (current_question scenario_after_submit) = Some q_data /\
    user_answers scenario_after_submit !! current_question scenario_after_submit = Some last_answer /\
    feedback_correct scenario_after_submit = Some (bool_decide (last_answer = answer q_data)) /\
    step scenario_after_submit ENext (next_question scenario_after_submit) /\
    ((current_question scenario_after_submit + 1 <
      Z.of_nat (length (questions scenario_after_submit)))%Z ->
       next_question scenario_after_submit =
       mk_session QuizStarted (questions scenario_after_submit)
         (current_question scenario_after_submit + 1)%Z (user_answers scenario_after_submit)) /\
    ((current_question scenario_after_submit + 1 =
      Z.of_nat (length (questions scenario_after_submit)))%Z ->
       next_question scenario_after_submit =
       mk_session Finished (questions scenario_after_submit)
         (current_question scenario_after_submit) (user_answers scenario_after_submit)) /\
    index_in_bounds (next_question scenario_after_submit).
Proof.
  split; [reflexivity|].
  apply (next_from_feedback scenario_after_submit).
  - apply scenario_after_submit_reachable.
  - reflexivity.
Defined.

(** ** Selecting a question *)

Lemma py_list_index_elem (x : text) (l : list text) :
  x ∈ l -> exists k, py_list_index x l = Some k /\ l !! k = Some x.
Proof.
  induction l as [|y l IH]; intros Hin.
  - apply elem_of_nil in Hin. contradiction.
  - simpl. case_bool_decide as Hyx.
    + subst. exists 0%nat. split; reflexivity.
    + apply elem_of_cons in Hin as [->|Hin]; [congruence|].
      destruct (IH Hin) as (k & -> & Hk). exists (S k). split; [reflexivity|exact Hk].
Qed.

Lemma existsb_eq_elem (x : text) (l : list text) :
  x ∈ l -> existsb (fun o => bool_decide (o = x)) l = true.
Proof.
  intros Hin. apply existsb_exists. exists x.
  split; [apply list_elem_of_In; exact Hin|]. apply bool_decide_eq_true. reflexivity.
Qed.

(** C6: selecting the label of question [i] in a reachable question screen
    lands on question [i] in [quiz_started], keeps the stored answers, and
    preselects the stored answer of question [i]; selecting the same label
    again changes nothing more. *)
Theorem jump_keeps_answers (s : session) (i : nat) :
  reachable s ->
  (state s = QuizStarted \/ state s = ShowFeedback) ->
  (i < length (questions s))%nat ->
  exists s',
    step s (EJump (jumper_label i)) s' /\
    state s' = QuizStarted /\ current_question s' = Z.of_nat i /\
    questions s' = questions s /\ user_answers s' = user_answers s /\
    (forall a, user_answers s !! Z.of_nat i = Some a -> preselected_answer s' = Some a) /\
    exists s'',
      step s' (EJump (jumper_label i)) s'' /\
      state s'' = QuizStarted /\ current_question s'' = Z.of_nat i /\
      questions s'' = questions s /\ user_answers s'' = user_answers s.
Proof.
  intros Hr Hst Hi.
  destruct (reachable_session_inv s Hr) as (_ & Hb & _ & Hans).
  assert (Hbs : index_in_bounds s) by (apply Hb; destruct Hst; congruence).
  destruct (py_index_in_bounds (questions s) (current_question s) Hbs) as [q Hq].
  set (s' := mk_session QuizStarted (questions s) (Z.of_nat i) (user_answers s)).
  assert (Hqi : exists qi, py_index (questions s) (Z.of_nat i) = Some qi).
  { rewrite py_index_nat. apply lookup_lt_is_Some_2. exact Hi. }
  destruct Hqi as [qi Hqi].
  exists s'. split.
  { apply (step_jump s q (jumper_label i) s'); [exact Hst|exact Hq| |exact (jump_to_label s i)].
    apply jumper_label_in. exact Hi. }
  do 4 (split; [reflexivity|]). split.
  - intros a Ha. destruct (Hans _ _ Ha) as (q' & Hq' & Hin).
    rewrite Hqi in Hq'. injection Hq' as <-.
    unfold preselected_answer, previous_answer_index. simpl. rewrite Hqi, Ha.
    rewrite existsb_eq_elem by exact Hin.
    destruct (py_list_index_elem a (valid_options qi) Hin) as (k & -> & Hk). exact Hk.
  - exists (mk_session QuizStarted (questions s) (Z.of_nat i) (user_answers s)).
    split; [|repeat split].
    apply (step_jump s' qi (jumper_label i)); [left; reflexivity|exact Hqi| |exact (jump_to_label s' i)].
    apply jumper_label_in. exact Hi.
Qed.

Lemma jump_keeps_answers_witness :
  exists s',
    step scenario_after_submit (EJump (jumper_label 0)) s' /\
    state s' = QuizStarted /\ current_question s' = Z.of_nat 0 /\
    questions s' = questions scenario_after_submit /\
    user_answers s' = user_answers scenario_after_submit /\
    (forall a, user_answers scenario_after_submit !! Z.of_nat 0 = Some a ->
               preselected_answer s' = Some a) /\
    exists s'',
      step s' (EJump (jumper_label 0)) s'' /\
      state s'' = QuizStarted /\ current_question s'' = Z.of_nat 0 /\
      questions s'' = questions scenario_after_submit /\
      user_answers s'' = user_answers scenario_after_submit.
Proof.
  apply (jump_keeps_answers scenario_after_submit 0).
  - apply scenario_after_submit_reachable.
  - right. reflexivity.
  - simpl. lia.
Defined.

(** ** A whole quiz answered correctly *)

Lemma run_answer_suffix (n : nat) :
  forall (k : nat) (s s' : session),
    state s = QuizStarted ->
    current_question s = Z.of_nat k ->
    (k + S n = length (questions s))%nat ->
    run s (answer_every_question (drop k (questions s))) s' ->
    state s' = Finished /\ questions s' = questions s /\
    (forall j q, (k <= j)%nat -> questions s !! j = Some q ->
                 user_answers s' !! Z.of_nat j = Some (answer q)) /\
    (forall i : Z, (i < Z.of_nat k)%Z -> user_answers s' !! i = user_answers s !! i).
Proof.
  induction n as [|n IH]; intros k s s' Hst Hcur Hlen Hrun.
  - destruct (lookup_lt_is_Some_2 (questions s) k ltac:(lia)) as [q Hq].
    rewrite (drop_S _ _ _ Hq) in Hrun.
    rewrite drop_ge in Hrun by lia. simpl in Hrun.
    inversion Hrun as [|? ? s1 ? ? Hs1 Hrun1]; subst.
    inversion Hrun1 as [|? ? s2 ? ? Hs2 Hrun2]; subst.
    inversion Hrun2; subst.
    inversion Hs1; subst. inversion Hs2; subst.
    unfold next_question, submit_answer. simpl.
    rewrite Hcur. replace (Z.of_nat k + 1 =? Z.of_nat (length (questions s)))%Z with true
      by (symmetry; apply Z.eqb_eq; lia).
    simpl. split; [reflexivity|]. split; [reflexivity|]. split.
    + intros j q' Hj Hq'.
      assert (j = k) as -> by (apply lookup_lt_Some in Hq'; lia).
      rewrite Hq in Hq'. injection Hq' as <-. apply lookup_insert_eq.
    + intros i Hi. apply lookup_insert_ne. lia.
  - destruct (lookup_lt_is_Some_2 (questions s) k ltac:(lia)) as [q Hq].
    rewrite (drop_S _ _ _ Hq) in Hrun. simpl in Hrun.
    inversion Hrun as [|? ? s1 ? ? Hs1 Hrun1]; subst.
    inversion Hrun1 as [|? ? s2 ? ? Hs2 Hrun2]; subst.
    inversion Hs1; subst. inversion Hs2; subst.
    set (s2 := next_question (submit_answer s (answer q))) in *.
    assert (Hs2eq : s2 = mk_session QuizStarted (questions s) (Z.of_nat (S k))
                           (<[Z.of_nat k := answer q]> (user_answers s))).
    { unfold s2, next_question, submit_answer. simpl. rewrite Hcur.
      replace (Z.of_nat k + 1 =? Z.of_nat (length (questions s)))%Z with false
        by (symmetry; apply Z.eqb_neq; lia).
      f_equal. lia. }
    rewrite Hs2eq in Hrun2.
    destruct (IH (S k) (mk_session QuizStarted (questions s) (Z.of_nat (S k))
                           (<[Z.of_nat k := answer q]> (user_answers s))) s'
                eq_refl eq_refl ltac:(simpl; lia) Hrun2)
      as (Hfin & Hqs & Hall & Hpre).
    simpl in *. split; [exact Hfin|]. split; [exact Hqs|]. split.
    + intros j q' Hj Hq'.
      destruct (decide (j = k)) as [->|Hne].
      * rewrite Hpre by lia. rewrite Hq in Hq'. injection Hq' as <-.
        apply lookup_insert_eq.
      * apply Hall; [lia|exact Hq'].
    + intros i Hi. rewrite Hpre by lia. apply lookup_insert_ne. lia.
Qed.

Lemma filter_all_true {A} (f : A -> bool) (l : list A) :
  (forall x, In x l -> f x = true) -> List.filter f l = l.
Proof.
  induction l as [|x l IH]; intros H; [reflexivity|].
  simpl. rewrite (H x (or_introl eq_refl)), IH; [reflexivity|].
  intros y Hy. apply H. right. exact Hy.
Qed.

(** C9: from question 0 of [quiz_started], checking the answer string of
    every question and pressing Next Question / Finish Quiz after each one
    ends in [finished] with a score of [len(questions)]. *)
Theorem answering_all_correctly_scores_all (s s' : session) :
  state s = QuizStarted ->
  current_question s = 0%Z ->
  questions s <> [] ->
  run s (answer_every_question (questions s)) s' ->
  state s' = Finished /\ score s' = length (questions s).
Proof.
  intros Hst Hcur Hne Hrun.
  destruct (questions s) as [|q0 qs0] eqn:Eqs; [congruence|].
  rewrite <- Eqs in *.
  destruct (run_answer_suffix (length qs0) 0 s s' Hst Hcur
              ltac:(rewrite Eqs; simpl; lia) Hrun) as (Hfin & Hqs & Hall & _).
  split; [exact Hfin|].
  unfold score. rewrite (score_from_filter _ _ 0), Hqs.
  rewrite filter_all_true; [apply length_seq|].
  intros i Hi. apply in_seq in Hi.
  rewrite Nat.sub_0_r.
  destruct (lookup_lt_is_Some_2 (questions s) i ltac:(lia)) as [q Hq].
  rewrite Hq. apply bool_decide_eq_true. apply Hall; [lia|exact Hq].
Qed.

Lemma scenario_run : run scenario_start (answer_every_question scenario_store) scenario_end.
Proof.
  unfold answer_every_question, scenario_end. simpl.
  eapply run_cons.
  { apply (step_submit scenario_start two_plus_two); [reflexivity|reflexivity|].
    apply list_elem_of_In. simpl. tauto. }
  eapply run_cons.
  { apply (step_next _ two_plus_two); reflexivity. }
  eapply run_cons.
  { apply (step_submit _ (mk_question (txt "3+3?") [txt "6"; txt "7"] (txt "6")));
      [reflexivity|reflexivity|].
    apply list_elem_of_In. simpl. tauto. }
  eapply run_cons.
  { apply (step_next _ (mk_question (txt "3+3?") [txt "6"; txt "7"] (txt "6"))); reflexivity. }
  apply run_nil.
Qed.

Lemma answering_all_correctly_scores_all_witness :
  run scenario_start (answer_every_question (questions scenario_start)) scenario_end /\
  state scenario_end = Finished /\ score scenario_end = 2%nat.
Proof.
  split; [exact scenario_run|].
  apply (answering_all_correctly_scores_all scenario_start scenario_end).
  - reflexivity.
  - reflexivity.
  - discriminate.
  - exact scenario_run.
Defined.

(** ** Removal of the fence markers *)

Open Scope N_scope.

Lemma FENCE_eq : FENCE = [96; 96; 96]%N.
Proof. reflexivity. Qed.

Lemma FENCE_JSON_eq : FENCE_JSON = [96; 96; 96; 106; 115; 111; 110]%N.
Proof. reflexivity. Qed.

Section Replace.

Variables old new : text.
Hypothesis old_nonempty : old <> [].

Lemma replace_fuel_enough (f : nat) :
  forall s, (length s <= f)%nat ->
  replace_fuel (S f) old new s = replace_fuel f old new s.
Proof.
  induction f as [|f IH]; intros s Hs.
  - destruct s; [reflexivity | simpl in Hs; lia].
  - destruct s as [|c s']; [reflexivity|].
    cbn [replace_fuel].
    destruct (is_prefix old (c :: s')).
    + f_equal. apply IH. rewrite length_drop.
      destruct old; [congruence|]. simpl in *. lia.
    + f_equal. apply IH. simpl in Hs. lia.
Qed.

Lemma replace_fuel_ge (s : text) (f : nat) :
  (length s <= f)%nat -> replace_fuel f old new s = py_replace old new s.
Proof.
  unfold py_replace. induction 1 as [|f H IH]; [reflexivity|].
  rewrite replace_fuel_enough by lia. exact IH.
Qed.

Lemma py_replace_nil : py_replace old new [] = [].
Proof. reflexivity. Qed.

Lemma py_replace_cons (c : N) (s : text) :
  is_prefix old (c :: s) = false ->
  py_replace old new (c :: s) = c :: py_replace old new s.
Proof.
  intros H. unfold py_replace.
  change (length (c :: s)) with (S (length s)). cbn [replace_fuel].
  rewrite H. reflexivity.
Qed.

Lemma py_replace_match (s : text) :
  is_prefix old s = true ->
  py_replace old new s = new ++ py_replace old new (drop (length old) s).
Proof.
  intros H. destruct s as [|c s'].
  { destruct old; [congruence|discriminate]. }
  unfold py_replace at 1.
  change (length (c :: s')) with (S (length s')). cbn [replace_fuel].
  rewrite H. f_equal. apply replace_fuel_ge.
  rewrite length_drop. destruct old; [congruence|]. simpl. lia.
Qed.

Lemma py_replace_old_app (s : text) :
  py_replace old new (old ++ s) = new ++ py_replace old new s.
Proof.
  rewrite py_replace_match.
  - rewrite drop_app_length. reflexivity.
  - clear old_nonempty. induction old as [|a o IH]; [reflexivity|].
    simpl. rewrite N.eqb_refl. exact IH.
Qed.

End Replace.

Lemma is_prefix_app (p q s : text) :
  is_prefix (p ++ q) s = true -> is_prefix p s = true.
Proof.
  revert s. induction p as [|a p IH]; intros s H; [reflexivity|].
  destruct s as [|b s]; [discriminate|].
  simpl in *. apply andb_prop in H as [H1 H2]. rewrite H1. simpl. exact (IH s H2).
Qed.

Lemma py_contains_app (p q s : text) :
  py_contains (p ++ q) s = true -> py_contains p s = true.
Proof.
  induction s as [|c s IH]; simpl; intros H;
    apply orb_prop in H as [H|H].
  - rewrite (is_prefix_app p q [] H). reflexivity.
  - discriminate.
  - rewrite (is_prefix_app p q _ H). reflexivity.
  - rewrite (IH H). apply orb_true_r.
Qed.

Lemma py_contains_cons (p : text) (c : N) (s : text) :
  is_prefix p (c :: s) = false -> py_contains p (c :: s) = py_contains p s.
Proof. intros H. cbn [py_contains]. rewrite H. reflexivity. Qed.

(** After [.replace('```', '')] no [```] is left: a run of [k] backticks
    loses [3 * (k / 3)] of them and keeps fewer than three, and a non
    backtick stays between two runs. *)
Ltac fence_prefix_false :=
  rewrite FENCE_eq; cbn [is_prefix]; rewrite ?N.eqb_refl, ?andb_true_l;
  repeat match goal with
  | H : ?x <> 96 |- context [96 =? ?x] =>
      replace (96 =? x) with false by (symmetry; apply N.eqb_neq; lia)
  end;
  rewrite ?andb_false_l, ?andb_false_r; reflexivity.

Lemma no_fence_after_replace (n : nat) :
  forall s, (length s <= n)%nat -> py_contains FENCE (py_replace FENCE [] s) = false.
Proof.
  assert (Hne : FENCE <> []) by (rewrite FENCE_eq; discriminate).
  induction n as [|n IH]; intros s Hs.
  { destruct s; [reflexivity|simpl in Hs; lia]. }
  destruct s as [|c s]; [reflexivity|].
  destruct (N.eq_dec c 96) as [->|Hc].
  2:{ rewrite py_replace_cons, py_contains_cons by (auto; fence_prefix_false).
      apply IH. simpl in Hs. lia. }
  destruct s as [|c2 s]; [reflexivity|].
  destruct (N.eq_dec c2 96) as [->|Hc2].
  2:{ rewrite py_replace_cons, py_replace_cons by (auto; fence_prefix_false).
      rewrite py_contains_cons, py_contains_cons by fence_prefix_false.
      apply IH. simpl in Hs. lia. }
  destruct s as [|c3 s]; [reflexivity|].
  destruct (N.eq_dec c3 96) as [->|Hc3].
  - rewrite py_replace_match by (auto; rewrite FENCE_eq; reflexivity).
    replace (drop (length FENCE) (96 :: 96 :: 96 :: s)) with s
      by (rewrite FENCE_eq; reflexivity).
    apply IH. simpl in Hs. lia.
  - rewrite !py_replace_cons by (auto; fence_prefix_false).
    rewrite !py_contains_cons by fence_prefix_false.
    apply IH. simpl in Hs. lia.
Qed.

(** The reply of the example below: the fenced array has a question and an
    option holding a triple backtick inside their strings. *)
Lemma backticks_in_strings_store :
  extracted_store true (Reply backticks_in_strings_reply) =
  Some (JArr [JObj [(txt "question", JStr (txt "What does x do?"));
                    (txt "options", JArr [JStr (txt "x"); JStr (txt "y")]);
                    (txt "answer", JStr (txt "x"))]]).
Proof. vm_compute. reflexivity. Qed.

(** C10: the cleaning step removes the markers everywhere in the reply:
    for every reply no [```] and hence no [```json] is left anywhere in the
    cleaned text; so backticks inside a question, option or answer string
    are deleted before [json.loads] sees the text, as in the reply
    [backticks_in_strings_reply], whose record is stored without them. *)
Theorem clean_reply_removes_every_fence :
  (forall raw : text,
     py_contains FENCE (clean_reply raw) = false /\
     py_contains FENCE_JSON (clean_reply raw) = false) /\
  extracted_store true (Reply backticks_in_strings_reply) =
  Some (JArr [JObj [(txt "question", JStr (txt "What does x do?"));
                    (txt "options", JArr [JStr (txt "x"); JStr (txt "y")]);
                    (txt "answer", JStr (txt "x"))]]).
Proof.
  split; [|exact backticks_in_strings_store].
  intros raw.
  assert (H : py_contains FENCE (clean_reply raw) = false).
  { unfold clean_reply. apply (no_fence_after_replace _ _ (le_n _)). }
  split; [exact H|].
  destruct (py_contains FENCE_JSON (clean_reply raw)) eqn:E; [|reflexivity].
  rewrite FENCE_JSON_eq in E.
  change ([96; 96; 96; 106; 115; 111; 110]%N) with (([96; 96; 96] ++ [106; 115; 111; 110])%N) in E.
  apply py_contains_app in E. rewrite <- FENCE_eq in E. congruence.
Qed.

Close Scope N_scope.

(** ** Fenced and bare replies *)

Open Scope N_scope.

(** *** White space after a JSON text *)

Lemma is_json_ws_cases (x : N) :
  is_json_ws x = true -> x = 32 \/ x = 9 \/ x = 10 \/ x = 13.
Proof.
  unfold is_json_ws. intros H.
  repeat (apply orb_prop in H as [H|H]); apply N.eqb_eq in H; tauto.
Qed.

Ltac ws_cases x Hx :=
  destruct (is_json_ws_cases x Hx) as [ -> | [ -> | [ -> | -> ]]].

Section WsChar.

Variable x : N.
Hypothesis Hx : is_json_ws x = true.

Lemma ws_not_digit : is_digit x = false.
Proof. ws_cases x Hx; reflexivity. Qed.

Lemma ws_hex_digit : hex_digit x = None.
Proof. ws_cases x Hx; reflexivity. Qed.

Lemma ws_simple_escape : simple_escape x = None.
Proof. ws_cases x Hx; reflexivity. Qed.

Lemma ws_not_u : (x =? 117) = false.
Proof. ws_cases x Hx; reflexivity. Qed.

Lemma ws_not_backslash : (x =? BACKSLASH) = false.
Proof. ws_cases x Hx; reflexivity. Qed.

Lemma hex4_ws_2 (a : N) (b c : N) : hex4 a x b c = None.
Proof. unfold hex4. rewrite ws_hex_digit. destruct (hex_digit a); reflexivity. Qed.

Lemma hex4_ws_3 (a b c : N) : hex4 a b x c = None.
Proof.
  unfold hex4. rewrite ws_hex_digit.
  destruct (hex_digit a), (hex_digit b); reflexivity.
Qed.

Lemma hex4_ws_4 (a b c : N) : hex4 a b c x = None.
Proof.
  unfold hex4. rewrite ws_hex_digit.
  destruct (hex_digit a), (hex_digit b), (hex_digit c); reflexivity.
Qed.

End WsChar.

Lemma app_rest_nil {A : Type} (o : option (A * text)) : app_rest [] o = o.
Proof. destruct o as [[v r]|]; simpl; [rewrite app_nil_r|]; reflexivity. Qed.

Lemma app_rest_app {A : Type} (w1 w2 : text) (o : option (A * text)) :
  app_rest w2 (app_rest w1 o) = app_rest (w1 ++ w2) o.
Proof. destruct o as [[v r]|]; simpl; [rewrite app_assoc|]; reflexivity. Qed.

Lemma cons_str_app_rest (d : N) (w : text) (o : option (text * text)) :
  cons_str d (app_rest w o) = app_rest w (cons_str d o).
Proof. destruct o as [[v r]|]; reflexivity. Qed.

Section AppendWs.

Variable x : N.
Hypothesis Hx : is_json_ws x = true.

Lemma skip_ws_app1 (s : text) :
  skip_ws (s ++ [x]) = match skip_ws s with [] => [] | c :: r => c :: r ++ [x] end.
Proof.
  induction s as [|c s IH]; simpl.
  - rewrite Hx. reflexivity.
  - destruct (is_json_ws c); [exact IH|reflexivity].
Qed.

Lemma span_digits_app1 (s : text) :
  span_digits (s ++ [x]) = (fst (span_digits s), snd (span_digits s) ++ [x]).
Proof.
  induction s as [|c s IH]; simpl.
  - rewrite (ws_not_digit x Hx). reflexivity.
  - destruct (is_digit c); [|reflexivity].
    rewrite IH. destruct (span_digits s). reflexivity.
Qed.

Lemma scan_int_app1 (s : text) :
  scan_int (s ++ [x]) = app_rest [x] (scan_int s).
Proof.
  destruct s as [|c s]; simpl.
  - ws_cases x Hx; reflexivity.
  - destruct (c =? 48); [reflexivity|].
    destruct (is_digit c); [|reflexivity].
    rewrite span_digits_app1. destruct (span_digits s). reflexivity.
Qed.

Lemma scan_frac_app1 (s : text) :
  scan_frac (s ++ [x]) = (fst (scan_frac s), snd (scan_frac s) ++ [x]).
Proof.
  destruct s as [|c [|d s]]; simpl.
  - reflexivity.
  - rewrite (ws_not_digit x Hx), andb_false_r. reflexivity.
  - destruct ((c =? DOT) && is_digit d); [|reflexivity].
    rewrite span_digits_app1. destruct (span_digits s). reflexivity.
Qed.

Lemma scan_exp_app1 (s : text) :
  scan_exp (s ++ [x]) = (fst (scan_exp s), snd (scan_exp s) ++ [x]).
Proof.
  destruct s as [|e s1]; simpl.
  - ws_cases x Hx; reflexivity.
  - destruct ((e =? 101) || (e =? 69)); [|reflexivity].
    destruct s1 as [|c s1]; simpl.
    + ws_cases x Hx; reflexivity.
    + destruct ((c =? MINUS) || (c =? PLUS)).
      * rewrite span_digits_app1. destruct (span_digits s1) as [[|d ds] r]; reflexivity.
      * change (c :: s1 ++ [x]) with ((c :: s1) ++ [x]).
        rewrite span_digits_app1. destruct (span_digits (c :: s1)) as [[|d ds] r]; reflexivity.
Qed.

Lemma scan_number_app1 (s : text) :
  scan_number (s ++ [x]) = app_rest [x] (scan_number s).
Proof.
  assert (Htail : forall sg s1, scan_int s1 = scan_int s1 ->
    (match scan_int (s1 ++ [x]) with
     | None => None
     | Some (i, r1) =>
         let '(f, r2) := scan_frac r1 in
         let '(e, r3) := scan_exp r2 in
         Some (sg ++ i ++ f ++ e, r3)
     end) =
    app_rest [x] (match scan_int s1 with
     | None => None
     | Some (i, r1) =>
         let '(f, r2) := scan_frac r1 in
         let '(e, r3) := scan_exp r2 in
         Some (sg ++ i ++ f ++ e, r3)
     end)).
  { intros sg s1 _. rewrite scan_int_app1.
    destruct (scan_int s1) as [[i r1]|]; simpl; [|reflexivity].
    rewrite scan_frac_app1. destruct (scan_frac r1) as [f r2]. simpl.
    rewrite scan_exp_app1. destruct (scan_exp r2) as [e r3]. reflexivity. }
  unfold scan_number. destruct s as [|c s].
  - simpl. ws_cases x Hx; reflexivity.
  - cbn [app]. destruct (c =? MINUS).
    + exact (Htail [c] s eq_refl).
    + exact (Htail [] (c :: s) eq_refl).
Qed.

Lemma strip_prefix_app1 (p s : text) :
  forallb (fun c => negb (is_json_ws c)) p = true ->
  strip_prefix p (s ++ [x]) = option_map (fun r => r ++ [x]) (strip_prefix p s).
Proof.
  revert s. induction p as [|a p IH]; intros s Hp; [reflexivity|].
  simpl in Hp. apply andb_prop in Hp as [Ha Hp].
  destruct s as [|c s]; simpl.
  - replace (a =? x) with false; [reflexivity|].
    symmetry. apply N.eqb_neq. intros ->. rewrite Hx in Ha. discriminate.
  - destruct (a =? c); [exact (IH s Hp)|reflexivity].
Qed.

Lemma scan_constant_app1 (s : text) :
  scan_constant (s ++ [x]) = app_rest [x] (scan_constant s).
Proof.
  unfold scan_constant.
  rewrite !strip_prefix_app1 by reflexivity.
  repeat match goal with
  | |- context [strip_prefix ?p s] =>
      destruct (strip_prefix p s); cbv beta iota delta [option_map app_rest]
  end; reflexivity.
Qed.

End AppendWs.

Section AppendWsParse.

Variable x : N.
Hypothesis Hx : is_json_ws x = true.

Lemma scan_string_app1 (n : nat) :
  forall s, (length s <= n)%nat -> scan_string (s ++ [x]) = app_rest [x] (scan_string s).
Proof.
  induction n as [|n IH]; intros s Hs.
  { destruct s; [|simpl in Hs; lia]. simpl. ws_cases x Hx; reflexivity. }
  destruct s as [|c s1].
  { simpl. ws_cases x Hx; reflexivity. }
  assert (E1 := IH s1 ltac:(simpl in Hs; lia)).
  cbn [app scan_string].
  destruct (c =? QUOTE); [reflexivity|].
  destruct (c =? BACKSLASH).
  2:{ destruct (c <? 32); [reflexivity|]. rewrite E1. apply cons_str_app_rest. }
  destruct s1 as [|e s2].
  { cbn [app]. rewrite (ws_not_u x Hx), (ws_simple_escape x Hx). reflexivity. }
  assert (E2 := IH s2 ltac:(simpl in Hs; lia)).
  cbn [app] in *.
  destruct (e =? 117).
  2:{ destruct (simple_escape e) as [d|]; [|reflexivity].
      rewrite E2. apply cons_str_app_rest. }
  destruct s2 as [|h1 [|h2 [|h3 [|h4 s3]]]]; cbn [app] in *.
  1-3: reflexivity.
  { rewrite (hex4_ws_4 x Hx). reflexivity. }
  assert (E3 := IH s3 ltac:(simpl in Hs; lia)).
  destruct (hex4 h1 h2 h3 h4) as [u|]; [|reflexivity].
  destruct (is_high_surrogate u).
  2:{ rewrite E3. apply cons_str_app_rest. }
  destruct s3 as [|b [|v [|g1 [|g2 [|g3 [|g4 s4]]]]]]; cbn [app] in *.
  1-5: rewrite E3; apply cons_str_app_rest.
  { rewrite (hex4_ws_4 x Hx).
    destruct ((b =? BACKSLASH) && (v =? 117)); rewrite E3; apply cons_str_app_rest. }
  assert (E4 := IH s4 ltac:(simpl in Hs; lia)).
  destruct ((b =? BACKSLASH) && (v =? 117)).
  2:{ rewrite E3. apply cons_str_app_rest. }
  destruct (hex4 g1 g2 g3 g4) as [lo|].
  2:{ rewrite E3. apply cons_str_app_rest. }
  destruct (is_low_surrogate lo); [rewrite E4|rewrite E3]; apply cons_str_app_rest.
Qed.

Lemma parse_value_nil (f : nat) : parse_value f [] = None.
Proof. destruct f; reflexivity. Qed.

Lemma parse_elements_nil (f : nat) (acc : list json) : parse_elements f [] acc = None.
Proof. destruct f as [|[|f]]; reflexivity. Qed.

Lemma parse_members_nil (f : nat) (acc : list (text * json)) : parse_members f [] acc = None.
Proof. destruct f; reflexivity. Qed.

Lemma parse_app1 (f : nat) :
  (forall s, parse_value f (s ++ [x]) = app_rest [x] (parse_value f s)) /\
  (forall s acc, parse_elements f (s ++ [x]) acc = app_rest [x] (parse_elements f s acc)) /\
  (forall s acc, parse_members f (s ++ [x]) acc = app_rest [x] (parse_members f s acc)).
Proof.
  induction f as [|f (IHv & IHe & IHm)]; [repeat split; intros; reflexivity|].
  split; [|split].
  - intros s. destruct s as [|c r].
    { ws_cases x Hx; reflexivity. }
    change ((c :: r) ++ [x]) with (c :: (r ++ [x])). simpl.
    destruct (c =? QUOTE).
    { rewrite (scan_string_app1 _ r (le_n _)).
      destruct (scan_string r) as [[s' r']|]; reflexivity. }
    destruct (c =? LBRACE).
    { rewrite skip_ws_app1 by exact Hx. destruct (skip_ws r) as [|d r']; [reflexivity|].
      simpl. destruct (d =? RBRACE); [reflexivity|]. exact (IHm (d :: r') []). }
    destruct (c =? LBRACKET).
    { rewrite skip_ws_app1 by exact Hx. destruct (skip_ws r) as [|d r']; [reflexivity|].
      simpl. destruct (d =? RBRACKET); [reflexivity|]. exact (IHe (d :: r') []). }
    change (c :: r ++ [x]) with ((c :: r) ++ [x]).
    rewrite (scan_constant_app1 x Hx), (scan_number_app1 x Hx).
    destruct (scan_constant (c :: r)) as [[v r']|]; [reflexivity|].
    destruct (scan_number (c :: r)) as [[lx r']|]; reflexivity.
  - intros s acc. simpl.
    rewrite IHv. destruct (parse_value f s) as [[v r]|]; [|reflexivity]. simpl.
    rewrite skip_ws_app1 by exact Hx. destruct (skip_ws r) as [|c r']; [reflexivity|].
    simpl. destruct (c =? RBRACKET); [reflexivity|].
    destruct (c =? COMMA); [|reflexivity].
    rewrite skip_ws_app1 by exact Hx. destruct (skip_ws r') as [|d r''].
    + rewrite !parse_elements_nil. reflexivity.
    + exact (IHe (d :: r'') (v :: acc)).
  - intros s acc. destruct s as [|c r].
    { ws_cases x Hx; reflexivity. }
    change ((c :: r) ++ [x]) with (c :: (r ++ [x])). simpl.
    destruct (c =? QUOTE); [|reflexivity].
    rewrite (scan_string_app1 _ r (le_n _)).
    destruct (scan_string r) as [[k r1]|]; [|reflexivity]. simpl.
    rewrite skip_ws_app1 by exact Hx. destruct (skip_ws r1) as [|d r2]; [reflexivity|].
    simpl. destruct (d =? COLON); [|reflexivity].
    rewrite skip_ws_app1 by exact Hx. destruct (skip_ws r2) as [|d2 r2'].
    { rewrite !parse_value_nil. reflexivity. }
    change (d2 :: r2' ++ [x]) with ((d2 :: r2') ++ [x]). rewrite IHv.
    destruct (parse_value f (d2 :: r2')) as [[v r3]|]; [|reflexivity]. simpl.
    rewrite skip_ws_app1 by exact Hx. destruct (skip_ws r3) as [|e r4]; [reflexivity|].
    simpl. destruct (e =? RBRACE); [reflexivity|].
    destruct (e =? COMMA); [|reflexivity].
    rewrite skip_ws_app1 by exact Hx. destruct (skip_ws r4) as [|d3 r5].
    + rewrite !parse_members_nil. reflexivity.
    + exact (IHm (d3 :: r5) _).
Qed.

End AppendWsParse.

Lemma parse_value_app_ws (w : text) :
  forallb is_json_ws w = true ->
  forall f s, parse_value f (s ++ w) = app_rest w (parse_value f s).
Proof.
  induction w as [|y w IH]; intros Hw f s.
  - rewrite app_nil_r, app_rest_nil. reflexivity.
  - simpl in Hw. apply andb_prop in Hw as [Hy Hw].
    replace (s ++ y :: w) with ((s ++ [y]) ++ w) by (rewrite <- app_assoc; reflexivity).
    rewrite IH by exact Hw. rewrite (proj1 (parse_app1 y Hy f)).
    rewrite app_rest_app. reflexivity.
Qed.

Lemma skip_ws_app_ws (w : text) :
  forallb is_json_ws w = true ->
  forall s, skip_ws (s ++ w) = match skip_ws s with [] => [] | c :: r => c :: r ++ w end.
Proof.
  induction w as [|y w IH]; intros Hw s.
  - rewrite app_nil_r. destruct (skip_ws s) as [|c r]; [reflexivity|].
    rewrite app_nil_r. reflexivity.
  - simpl in Hw. apply andb_prop in Hw as [Hy Hw].
    replace (s ++ y :: w) with ((s ++ [y]) ++ w) by (rewrite <- app_assoc; reflexivity).
    rewrite IH by exact Hw. rewrite (skip_ws_app1 y Hy).
    destruct (skip_ws s) as [|c r]; [reflexivity|].
    rewrite <- app_assoc. reflexivity.
Qed.

(** *** What a scan consumes *)

Lemma consumed_length (s r : text) : consumed s r -> (length r < length s)%nat.
Proof.
  intros (m & Hm & ->). rewrite length_app. destruct m; [congruence|simpl; lia].
Qed.

Lemma skip_ws_split (s : text) :
  exists w, forallb is_json_ws w = true /\ s = w ++ skip_ws s.
Proof.
  induction s as [|c s IH]; [exists []; split; reflexivity|].
  simpl. destruct (is_json_ws c) eqn:E.
  - destruct IH as (w & Hw & Hs). exists (c :: w). simpl. rewrite E, Hw.
    split; [reflexivity|]. rewrite <- Hs. reflexivity.
  - exists []. split; reflexivity.
Qed.

Lemma skip_ws_nil_ws (s : text) : skip_ws s = [] -> forallb is_json_ws s = true.
Proof.
  induction s as [|c s IH]; [reflexivity|].
  simpl. destruct (is_json_ws c); [exact IH|discriminate].
Qed.

Lemma skip_ws_ws_app (w s : text) :
  forallb is_json_ws w = true -> skip_ws (w ++ s) = skip_ws s.
Proof.
  induction w as [|c w IH]; [reflexivity|].
  simpl. intros H. apply andb_prop in H as [Hc Hw]. rewrite Hc. exact (IH Hw).
Qed.

Lemma skip_ws_length (s : text) : (length (skip_ws s) <= length s)%nat.
Proof.
  induction s as [|c s IH]; [reflexivity|]. simpl. destruct (is_json_ws c); simpl; lia.
Qed.

Lemma cons_str_some (d : N) (o : option (text * text)) (y r : text) :
  cons_str d o = Some (y, r) -> exists y', o = Some (y', r).
Proof.
  destruct o as [[y' r']|]; simpl; [|discriminate].
  intros H. injection H as _ ->. exists y'. reflexivity.
Qed.

Ltac scan_leaf IH :=
  lazymatch goal with
  | H : Some ([], _) = Some (_, _) |- _ =>
      injection H as _ <-;
      lazymatch goal with
      | |- exists m, _ /\ ?a :: ?t = m ++ ?t => exists [a]; split; [discriminate|reflexivity]
      end
  | H : None = Some _ |- _ => discriminate H
  | H : cons_str _ (scan_string ?sK) = Some (_, _) |- _ =>
      apply cons_str_some in H as [? H];
      let m' := fresh "m" in
      let Hm' := fresh "Hm" in
      destruct (IH sK ltac:(simpl in *; lia) _ _ H) as (m' & _ & Hm');
      rewrite Hm'; eexists; split; [|rewrite ?app_comm_cons; reflexivity]; discriminate
  end.

Lemma scan_string_consumed (n : nat) :
  forall s, (length s <= n)%nat ->
  forall y r, scan_string s = Some (y, r) -> consumed s r.
Proof.
  unfold consumed.
  induction n as [|n IH]; intros s Hs y r H.
  { destruct s; [discriminate|simpl in Hs; lia]. }
  destruct s as [|c s1]; [discriminate|].
  cbn [scan_string] in H.
  repeat match type of H with
  | context [match ?z with _ => _ end] => destruct z; cbv beta iota in H
  end.
  all: scan_leaf IH.
Qed.

Lemma span_digits_split (s : text) : s = fst (span_digits s) ++ snd (span_digits s).
Proof.
  induction s as [|c s IH]; [reflexivity|]. simpl.
  destruct (is_digit c); [|reflexivity].
  destruct (span_digits s) as [ds r]. simpl in *. rewrite <- IH. reflexivity.
Qed.

Lemma scan_int_split (s i r : text) : scan_int s = Some (i, r) -> i <> [] /\ s = i ++ r.
Proof.
  destruct s as [|c s]; simpl; [discriminate|].
  destruct (c =? 48).
  { intros H. injection H as <- <-. split; [discriminate|reflexivity]. }
  destruct (is_digit c); [|discriminate].
  pose proof (span_digits_split s) as Hs.
  destruct (span_digits s) as [ds r']. intros H. injection H as <- <-.
  split; [discriminate|]. simpl in *. rewrite <- Hs. reflexivity.
Qed.

Lemma scan_frac_split (s : text) : s = fst (scan_frac s) ++ snd (scan_frac s).
Proof.
  destruct s as [|c [|d s]]; try reflexivity. simpl.
  destruct ((c =? DOT) && is_digit d); [|reflexivity].
  pose proof (span_digits_split s) as Hs.
  destruct (span_digits s) as [ds r]. simpl in *. rewrite <- Hs. reflexivity.
Qed.

Lemma scan_exp_split (s : text) : s = fst (scan_exp s) ++ snd (scan_exp s).
Proof.
  destruct s as [|e s1]; [reflexivity|]. simpl.
  destruct ((e =? 101) || (e =? 69)); [|reflexivity].
  destruct s1 as [|c s1].
  - reflexivity.
  - destruct ((c =? MINUS) || (c =? PLUS)).
    + pose proof (span_digits_split s1) as Hs.
      destruct (span_digits s1) as [[|d ds] r]; [reflexivity|].
      simpl in *. rewrite Hs. reflexivity.
    + pose proof (span_digits_split (c :: s1)) as Hs.
      destruct (span_digits (c :: s1)) as [[|d ds] r]; [reflexivity|].
      simpl in *. rewrite Hs. reflexivity.
Qed.

Lemma scan_number_consumed (s lx r : text) : scan_number s = Some (lx, r) -> consumed s r.
Proof.
  unfold scan_number, consumed.
  set (sgs := match s with
              | c :: s' => if c =? MINUS then ([c], s') else ([], s)
              | [] => ([], [])
              end).
  assert (Hsg : s = fst sgs ++ snd sgs).
  { unfold sgs. destruct s as [|c s']; [reflexivity|].
    destruct (c =? MINUS); reflexivity. }
  destruct sgs as [sg s1]. simpl in Hsg.
  destruct (scan_int s1) as [[i r1]|] eqn:Ei; [|discriminate].
  apply scan_int_split in Ei as [Hi Hs1].
  pose proof (scan_frac_split r1) as Hr1.
  destruct (scan_frac r1) as [fr r2].
  pose proof (scan_exp_split r2) as Hr2.
  destruct (scan_exp r2) as [ex r3].
  intros H. injection H as <- <-. simpl in *.
  exists (sg ++ i ++ fr ++ ex). split.
  - destruct sg, i; simpl; congruence.
  - rewrite Hsg, Hs1, Hr1, Hr2. rewrite !app_assoc. reflexivity.
Qed.

Lemma strip_prefix_split (p s r : text) : strip_prefix p s = Some r -> s = p ++ r.
Proof.
  revert s. induction p as [|a p IH]; intros s H.
  - injection H as ->. reflexivity.
  - destruct s as [|b s]; [discriminate|]. simpl in H.
    destruct (a =? b) eqn:E; [|discriminate].
    apply N.eqb_eq in E as ->. rewrite (IH s H). reflexivity.
Qed.

Lemma scan_constant_consumed (s : text) (v : json) (r : text) :
  scan_constant s = Some (v, r) -> consumed s r.
Proof.
  unfold scan_constant, consumed.
  repeat match goal with
  | |- context [match strip_prefix ?p s with _ => _ end] =>
      let E := fresh "E" in
      destruct (strip_prefix p s) eqn:E;
      [intros H; injection H as _ <-; apply strip_prefix_split in E;
       exists p; split; [discriminate|exact E]|]
  end.
  discriminate.
Qed.

(** The value that [scan_constant] reads is never an array. *)
Lemma scan_constant_not_arr (s : text) (l : list json) (r : text) :
  scan_constant s <> Some (JArr l, r).
Proof.
  unfold scan_constant.
  repeat match goal with
  | |- context [match strip_prefix ?p s with _ => _ end] =>
      destruct (strip_prefix p s); [discriminate|]
  end.
  discriminate.
Qed.

Ltac app_norm :=
  repeat first [rewrite <- app_assoc | rewrite <- app_comm_cons]; reflexivity.

Lemma parse_consumed (f : nat) :
  (forall s v r, parse_value f s = Some (v, r) -> consumed s r) /\
  (forall s acc v r, parse_elements f s acc = Some (v, r) -> exists m, s = m ++ RBRACKET :: r) /\
  (forall s acc v r, parse_members f s acc = Some (v, r) -> exists m, s = m ++ RBRACE :: r).
Proof.
  induction f as [|f (IHv & IHe & IHm)]; [repeat split; intros; discriminate|].
  split; [|split].
  - intros s v r H. destruct s as [|c r0]; [discriminate|].
    cbn [parse_value] in H.
    destruct (c =? QUOTE).
    { destruct (scan_string r0) as [[y r']|] eqn:E; [|discriminate].
      injection H as _ <-.
      destruct (scan_string_consumed _ r0 (le_n _) _ _ E) as (m & _ & ->).
      exists (c :: m). split; [discriminate|reflexivity]. }
    destruct (c =? LBRACE).
    { destruct (skip_ws_split r0) as (w & _ & Hr0).
      destruct (skip_ws r0) as [|d r'] eqn:E; [discriminate|].
      destruct (d =? RBRACE).
      - injection H as _ <-. rewrite Hr0. exists (c :: w ++ [d]).
        split; [discriminate|]. app_norm.
      - destruct (IHm _ _ _ _ H) as [m Hm]. rewrite Hr0, Hm.
        exists (c :: w ++ m ++ [RBRACE]). split; [discriminate|].
        app_norm. }
    destruct (c =? LBRACKET).
    { destruct (skip_ws_split r0) as (w & _ & Hr0).
      destruct (skip_ws r0) as [|d r'] eqn:E; [discriminate|].
      destruct (d =? RBRACKET).
      - injection H as _ <-. rewrite Hr0. exists (c :: w ++ [d]).
        split; [discriminate|]. app_norm.
      - destruct (IHe _ _ _ _ H) as [m Hm]. rewrite Hr0, Hm.
        exists (c :: w ++ m ++ [RBRACKET]). split; [discriminate|].
        app_norm. }
    destruct (scan_constant (c :: r0)) as [[v' r']|] eqn:E.
    { injection H as _ <-. exact (scan_constant_consumed _ _ _ E). }
    destruct (scan_number (c :: r0)) as [[lx r']|] eqn:E2; [|discriminate].
    injection H as _ <-. exact (scan_number_consumed _ _ _ E2).
  - intros s acc v r H. cbn [parse_elements] in H.
    destruct (parse_value f s) as [[v0 r0]|] eqn:E; [|discriminate].
    destruct (IHv _ _ _ E) as (m0 & _ & Hs).
    destruct (skip_ws_split r0) as (w & _ & Hr0).
    destruct (skip_ws r0) as [|c r'] eqn:E2; [discriminate|].
    destruct (c =? RBRACKET) eqn:Ec.
    + injection H as _ <-. apply N.eqb_eq in Ec. subst c.
      exists (m0 ++ w). rewrite Hs, Hr0, <- app_assoc. reflexivity.
    + destruct (c =? COMMA); [|discriminate].
      destruct (IHe _ _ _ _ H) as [m1 Hm1].
      destruct (skip_ws_split r') as (w' & _ & Hr').
      exists (m0 ++ w ++ c :: w' ++ m1).
      rewrite Hs, Hr0, Hr', Hm1. app_norm.
  - intros s acc v r H. destruct s as [|c r0]; [discriminate|].
    cbn [parse_members] in H.
    destruct (c =? QUOTE); [|discriminate].
    destruct (scan_string r0) as [[k r1]|] eqn:E1; [|discriminate].
    destruct (scan_string_consumed _ r0 (le_n _) _ _ E1) as (mk & _ & Hr0).
    destruct (skip_ws_split r1) as (w1 & _ & Hr1).
    destruct (skip_ws r1) as [|d r2] eqn:E2; [discriminate|].
    destruct (d =? COLON); [|discriminate].
    destruct (skip_ws_split r2) as (w2 & _ & Hr2).
    destruct (parse_value f (skip_ws r2)) as [[v0 r3]|] eqn:E3; [|discriminate].
    destruct (IHv _ _ _ E3) as (m3 & _ & Hs3).
    destruct (skip_ws_split r3) as (w3 & _ & Hr3).
    destruct (skip_ws r3) as [|e r4] eqn:E4; [discriminate|].
    destruct (e =? RBRACE) eqn:Ee.
    + injection H as _ <-. apply N.eqb_eq in Ee. subst e.
      exists (c :: mk ++ w1 ++ d :: w2 ++ m3 ++ w3).
      rewrite Hr0, Hr1, Hr2, Hs3, Hr3. app_norm.
    + destruct (e =? COMMA); [|discriminate].
      destruct (IHm _ _ _ _ H) as [m5 Hm5].
      destruct (skip_ws_split r4) as (w4 & _ & Hr4).
      exists (c :: mk ++ w1 ++ d :: w2 ++ m3 ++ w3 ++ e :: w4 ++ m5).
      rewrite Hr0, Hr1, Hr2, Hs3, Hr3, Hr4, Hm5. app_norm.
Qed.

Lemma parse_members_obj (f : nat) :
  forall s acc v r, parse_members f s acc = Some (v, r) -> exists kvs, v = JObj kvs.
Proof.
  induction f as [|f IH]; intros s acc v r H; [discriminate|].
  destruct s as [|c r0]; [discriminate|]. cbn [parse_members] in H.
  repeat match type of H with
  | context [match ?z with _ => _ end] =>
      lazymatch z with
      | parse_members _ _ _ => fail
      | _ => destruct z; cbv beta iota in H
      end
  end;
  try discriminate;
  first [injection H as <- _; eexists; reflexivity | exact (IH _ _ _ _ H)].
Qed.

(** A value read as an array spans from a [[] to its closing []]. *)
Lemma parse_value_arr (f : nat) (s : text) (l : list json) (r : text) :
  parse_value f s = Some (JArr l, r) -> exists m, s = LBRACKET :: m ++ RBRACKET :: r.
Proof.
  destruct f as [|f]; [discriminate|]. destruct s as [|c r0]; [discriminate|].
  cbn [parse_value]. intros H.
  destruct (c =? QUOTE).
  { destruct (scan_string r0) as [[y r']|]; discriminate. }
  destruct (c =? LBRACE).
  { destruct (skip_ws r0) as [|d r']; [discriminate|].
    destruct (d =? RBRACE); [discriminate|].
    destruct (parse_members_obj _ _ _ _ _ H). discriminate. }
  destruct (c =? LBRACKET) eqn:Ec.
  { apply N.eqb_eq in Ec. subst c.
    destruct (skip_ws_split r0) as (w & _ & Hr0).
    destruct (skip_ws r0) as [|d r'] eqn:E; [discriminate|].
    destruct (d =? RBRACKET) eqn:Ed.
    - injection H as _ <-. apply N.eqb_eq in Ed. subst d.
      exists w. rewrite Hr0. reflexivity.
    - destruct (proj1 (proj2 (parse_consumed f)) _ _ _ _ H) as [m Hm].
      exists (w ++ m). rewrite Hr0, Hm, <- app_assoc. reflexivity. }
  destruct (scan_constant (c :: r0)) as [[v' r']|] eqn:E.
  { injection H as -> ->. exfalso. exact (scan_constant_not_arr _ _ _ E). }
  destruct (scan_number (c :: r0)) as [[lx r']|]; discriminate.
Qed.

(** *** Fuel *)

Lemma parse_fuel_step (f : nat) :
  (forall s, (2 * length s <= f)%nat -> parse_value (S f) s = parse_value f s) /\
  (forall s acc, (2 * length s + 1 <= f)%nat ->
     parse_elements (S f) s acc = parse_elements f s acc) /\
  (forall s acc, (2 * length s + 1 <= f)%nat ->
     parse_members (S f) s acc = parse_members f s acc).
Proof.
  induction f as [|f (IHv & IHe & IHm)].
  { split; [|split]; intros s; [intros Hs|intros acc Hs|intros acc Hs]; try lia.
    destruct s; [reflexivity|simpl in Hs; lia]. }
  split; [|split].
  - intros s Hs. destruct s as [|c r0]; [reflexivity|].
    cbn [parse_value].
    pose proof (skip_ws_length r0) as L.
    destruct (c =? QUOTE); [reflexivity|].
    destruct (c =? LBRACE).
    { destruct (skip_ws r0) as [|d r']; [reflexivity|].
      destruct (d =? RBRACE); [reflexivity|].
      apply IHm. simpl in *. lia. }
    destruct (c =? LBRACKET); [|reflexivity].
    destruct (skip_ws r0) as [|d r']; [reflexivity|].
    destruct (d =? RBRACKET); [reflexivity|].
    apply IHe. simpl in *. lia.
  - intros s acc Hs. cbn [parse_elements].
    rewrite IHv by lia.
    destruct (parse_value f s) as [[v r]|] eqn:E; [|reflexivity].
    pose proof (consumed_length _ _ (proj1 (parse_consumed f) _ _ _ E)) as L1.
    pose proof (skip_ws_length r) as L2.
    destruct (skip_ws r) as [|c r']; [reflexivity|].
    destruct (c =? RBRACKET); [reflexivity|].
    destruct (c =? COMMA); [|reflexivity].
    pose proof (skip_ws_length r') as L3.
    apply IHe. simpl in *. lia.
  - intros s acc Hs. destruct s as [|c r0]; [reflexivity|].
    cbn [parse_members].
    destruct (c =? QUOTE); [|reflexivity].
    destruct (scan_string r0) as [[k r1]|] eqn:E1; [|reflexivity].
    pose proof (consumed_length _ _ (scan_string_consumed _ r0 (le_n _) _ _ E1)) as L1.
    pose proof (skip_ws_length r1) as L2.
    destruct (skip_ws r1) as [|d r2]; [reflexivity|].
    destruct (d =? COLON); [|reflexivity].
    pose proof (skip_ws_length r2) as L3.
    rewrite IHv by (simpl in *; lia).
    destruct (parse_value f (skip_ws r2)) as [[v r3]|] eqn:E3; [|reflexivity].
    pose proof (consumed_length _ _ (proj1 (parse_consumed f) _ _ _ E3)) as L4.
    pose proof (skip_ws_length r3) as L5.
    destruct (skip_ws r3) as [|e r4]; [reflexivity|].
    destruct (e =? RBRACE); [reflexivity|].
    destruct (e =? COMMA); [|reflexivity].
    pose proof (skip_ws_length r4) as L6.
    apply IHm. simpl in *. lia.
Qed.

Lemma parse_value_fuel_stable (s : text) (f : nat) :
  (2 * length s <= f)%nat -> parse_value f s = parse_value (2 * length s) s.
Proof.
  induction 1 as [|f H IH]; [reflexivity|].
  rewrite (proj1 (parse_fuel_step f)) by exact H. exact IH.
Qed.

(** *** [json.loads] on a padded array *)

Lemma json_loads_arr_shape (t : text) (items : list json) :
  json_loads t = Some (JArr items) ->
  exists wa m wb, forallb is_json_ws wa = true /\ forallb is_json_ws wb = true /\
    t = wa ++ (LBRACKET :: m ++ [RBRACKET]) ++ wb.
Proof.
  unfold json_loads. destruct (is_prefix [BOM] t); [discriminate|]. cbv zeta.
  destruct (skip_ws_split t) as (wa & Hwa & Ht).
  match goal with
  | |- context [parse_value ?f (skip_ws t)] =>
      destruct (parse_value f (skip_ws t)) as [[v r]|] eqn:E; [|discriminate]
  end.
  destruct (skip_ws r) eqn:Er; [|discriminate].
  intros H. injection H as ->.
  destruct (parse_value_arr _ _ _ _ E) as [m Hm].
  exists wa, m, r. split; [exact Hwa|]. split; [apply skip_ws_nil_ws; exact Er|].
  rewrite Ht, Hm. app_norm.
Qed.

Lemma json_loads_pad (P y Q : text) :
  forallb is_json_ws P = true -> forallb is_json_ws Q = true ->
  json_loads (P ++ (LBRACKET :: y) ++ Q) = json_loads (LBRACKET :: y).
Proof.
  intros HP HQ. unfold json_loads.
  assert (Hb : is_prefix [BOM] (P ++ (LBRACKET :: y) ++ Q) = false).
  { destruct P as [|p P]; [reflexivity|]. simpl in HP |- *.
    apply andb_prop in HP as [Hp _]. ws_cases p Hp; reflexivity. }
  rewrite Hb. change (is_prefix [BOM] (LBRACKET :: y)) with false. cbv zeta.
  rewrite skip_ws_ws_app by exact HP.
  change (skip_ws ((LBRACKET :: y) ++ Q)) with ((LBRACKET :: y) ++ Q).
  change (skip_ws (LBRACKET :: y)) with (LBRACKET :: y).
  rewrite parse_value_app_ws by exact HQ.
  rewrite (parse_value_fuel_stable (LBRACKET :: y)) by (rewrite length_app; lia).
  destruct (parse_value (2 * length (LBRACKET :: y)) (LBRACKET :: y)) as [[v r]|];
    [|reflexivity].
  cbn [app_rest]. rewrite skip_ws_app_ws by exact HQ.
  destruct (skip_ws r); reflexivity.
Qed.

(** *** [str.strip()] of a padded text *)

Lemma forallb_rev_N (f : N -> bool) (l : text) : forallb f (rev l) = forallb f l.
Proof.
  induction l as [|a l IH]; [reflexivity|].
  simpl. rewrite forallb_app, IH. simpl. rewrite andb_true_r, andb_comm. reflexivity.
Qed.

Lemma py_lstrip_space_app (o s : text) :
  forallb py_isspace o = true -> py_lstrip (o ++ s) = py_lstrip s.
Proof.
  induction o as [|c o IH]; [reflexivity|].
  simpl. intros H. apply andb_prop in H as [Hc Ho]. rewrite Hc. exact (IH Ho).
Qed.

Lemma json_ws_py_space (w : text) : forallb is_json_ws w = true -> forallb py_isspace w = true.
Proof.
  induction w as [|c w IH]; [reflexivity|].
  simpl. intros H. apply andb_prop in H as [Hc Hw]. rewrite (IH Hw), andb_true_r.
  ws_cases c Hc; reflexivity.
Qed.

(** [o1 + X + o2] with white space [o1], [o2] and a text [X] that starts
    and ends with a non white space character strips to [X]. *)
Lemma py_strip_pad (o1 o2 mid : text) (c d : N) :
  forallb py_isspace o1 = true -> forallb py_isspace o2 = true ->
  py_isspace c = false -> py_isspace d = false ->
  py_strip (o1 ++ (c :: mid ++ [d]) ++ o2) = c :: mid ++ [d].
Proof.
  intros Ho1 Ho2 Hc Hd. unfold py_strip, py_rstrip.
  rewrite py_lstrip_space_app by exact Ho1.
  simpl. rewrite Hc.
  replace (c :: (mid ++ [d]) ++ o2) with ((c :: mid ++ [d]) ++ o2) by reflexivity.
  rewrite rev_app_distr, py_lstrip_space_app by (rewrite forallb_rev_N; exact Ho2).
  replace (rev (c :: mid ++ [d])) with (d :: rev (c :: mid))
    by (rewrite app_comm_cons, rev_app_distr; reflexivity).
  simpl py_lstrip. rewrite Hd.
  change (rev (d :: rev mid ++ [c])) with (rev (rev mid ++ [c]) ++ [d]).
  rewrite rev_app_distr, rev_involutive. reflexivity.
Qed.

(** *** [str.replace] across a separator *)

Lemma is_prefix_app_r (p l m : text) : is_prefix p l = true -> is_prefix p (l ++ m) = true.
Proof.
  revert l. induction p as [|a p IH]; intros l H; [reflexivity|].
  destruct l as [|b l]; [discriminate|].
  simpl in *. apply andb_prop in H as [H1 H2]. rewrite H1. exact (IH l H2).
Qed.

(** An occurrence of [old] that starts before a character [c] foreign to
    [old] ends before it. *)
Lemma is_prefix_sep (old : text) (c : N) :
  ~ In c old -> forall a b, is_prefix old (a ++ c :: b) = true ->
  is_prefix old a = true /\ (length old <= length a)%nat.
Proof.
  intros Hc. induction old as [|o old IH]; intros a b H.
  - split; [reflexivity|simpl; lia].
  - destruct a as [|x a]; simpl in H.
    + apply andb_prop in H as [H _]. apply N.eqb_eq in H. subst o.
      exfalso. apply Hc. left. reflexivity.
    + apply andb_prop in H as [H1 H2].
      destruct (IH (fun h => Hc (or_intror h)) a b H2) as [H3 H4].
      simpl. rewrite H1, H3. split; [reflexivity|lia].
Qed.

Section ReplaceSep.

Variables old new : text.
Hypothesis old_nonempty : old <> [].
Variable c : N.
Hypothesis c_foreign : ~ In c old.

Lemma py_replace_sep_n (n : nat) :
  forall a b, (length a <= n)%nat ->
  py_replace old new (a ++ c :: b) = py_replace old new a ++ c :: py_replace old new b.
Proof.
  induction n as [|n IH]; intros a b Ha.
  - destruct a; [|simpl in Ha; lia]. simpl.
    apply py_replace_cons.
    destruct (is_prefix old (c :: b)) eqn:E; [|reflexivity].
    exfalso. destruct (is_prefix_sep old c c_foreign [] b E) as [_ H].
    destruct old; [congruence|simpl in H; lia].
  - destruct a as [|x a].
    { apply IH. simpl. lia. }
    destruct (is_prefix old ((x :: a) ++ c :: b)) eqn:E.
    + destruct (is_prefix_sep old c c_foreign _ _ E) as [H1 H2].
      rewrite (py_replace_match old new old_nonempty _ E).
      rewrite (py_replace_match old new old_nonempty _ H1).
      rewrite drop_app_le by exact H2.
      rewrite IH by (rewrite length_drop; destruct old; [congruence|simpl in *; lia]).
      rewrite app_assoc. reflexivity.
    + assert (E' : is_prefix old (x :: a) = false).
      { destruct (is_prefix old (x :: a)) eqn:E2; [|reflexivity].
        rewrite (is_prefix_app_r _ _ (c :: b) E2) in E. discriminate. }
      change ((x :: a) ++ c :: b) with (x :: (a ++ c :: b)) in E |- *.
      rewrite (py_replace_cons old new _ _ E).
      rewrite (py_replace_cons old new _ _ E').
      rewrite IH by (simpl in Ha; lia). reflexivity.
Qed.

Lemma py_replace_sep (a b : text) :
  py_replace old new (a ++ c :: b) = py_replace old new a ++ c :: py_replace old new b.
Proof. exact (py_replace_sep_n _ a b (le_n _)). Qed.

End ReplaceSep.

Lemma py_replace_ws_app (old new w s : text) :
  old <> [] -> (forall y, is_json_ws y = true -> ~ In y old) ->
  forallb is_json_ws w = true ->
  py_replace old new (w ++ s) = w ++ py_replace old new s.
Proof.
  intros Hold Hws. induction w as [|y w IH]; intros Hw; [reflexivity|].
  simpl in Hw. apply andb_prop in Hw as [Hy Hw].
  change ((y :: w) ++ s) with ([] ++ y :: (w ++ s)).
  rewrite (py_replace_sep old new Hold y (Hws y Hy)), IH by exact Hw.
  reflexivity.
Qed.

Lemma ws_not_in_fences (y : N) :
  is_json_ws y = true -> ~ In y FENCE /\ ~ In y FENCE_JSON.
Proof.
  intros Hy. rewrite FENCE_eq, FENCE_JSON_eq.
  ws_cases y Hy; split; simpl; intros H;
    repeat (destruct H as [H|H]; [apply N.eqb_eq in H; discriminate|]); destruct H.
Qed.

Lemma brackets_not_in_fences :
  ~ In LBRACKET FENCE /\ ~ In LBRACKET FENCE_JSON /\
  ~ In RBRACKET FENCE /\ ~ In RBRACKET FENCE_JSON.
Proof.
  rewrite FENCE_eq, FENCE_JSON_eq.
  repeat split; simpl; intros H;
    repeat (destruct H as [H|H]; [apply N.eqb_eq in H; discriminate|]); destruct H.
Qed.

(** *** Cleaning a fenced reply *)

Lemma FENCE_nonempty : FENCE <> [].
Proof. rewrite FENCE_eq. discriminate. Qed.

Lemma FENCE_JSON_nonempty : FENCE_JSON <> [].
Proof. rewrite FENCE_JSON_eq. discriminate. Qed.

Lemma py_replace_ws (old new w : text) :
  old <> [] -> (forall y, is_json_ws y = true -> ~ In y old) ->
  forallb is_json_ws w = true -> py_replace old new w = w.
Proof.
  intros Hold Hws Hw. rewrite <- (app_nil_r w) at 1.
  rewrite (py_replace_ws_app old new w [] Hold Hws Hw), app_nil_r. reflexivity.
Qed.

Lemma py_replace_fence_sep (old : text) (c : N) (a b : text) :
  old = FENCE \/ old = FENCE_JSON -> ~ In c FENCE -> ~ In c FENCE_JSON ->
  py_replace old [] (a ++ c :: b) = py_replace old [] a ++ c :: py_replace old [] b.
Proof.
  intros [-> | ->] H1 H2.
  - exact (py_replace_sep FENCE [] FENCE_nonempty c H1 a b).
  - exact (py_replace_sep FENCE_JSON [] FENCE_JSON_nonempty c H2 a b).
Qed.

Lemma py_replace_fence_ws (old w : text) :
  old = FENCE \/ old = FENCE_JSON -> forallb is_json_ws w = true ->
  py_replace old [] w = w.
Proof.
  intros [-> | ->] Hw.
  - apply py_replace_ws; [exact FENCE_nonempty| |exact Hw].
    intros y Hy. exact (proj1 (ws_not_in_fences y Hy)).
  - apply py_replace_ws; [exact FENCE_JSON_nonempty| |exact Hw].
    intros y Hy. exact (proj2 (ws_not_in_fences y Hy)).
Qed.

Lemma py_replace_fence_ws_app (old w s : text) :
  old = FENCE \/ old = FENCE_JSON -> forallb is_json_ws w = true ->
  py_replace old [] (w ++ s) = w ++ py_replace old [] s.
Proof.
  intros [-> | ->] Hw.
  - apply py_replace_ws_app; [exact FENCE_nonempty| |exact Hw].
    intros y Hy. exact (proj1 (ws_not_in_fences y Hy)).
  - apply py_replace_ws_app; [exact FENCE_JSON_nonempty| |exact Hw].
    intros y Hy. exact (proj2 (ws_not_in_fences y Hy)).
Qed.

(** The opening marker and the white space after it clean to that white
    space. *)
Lemma clean_opening (fence P : text) :
  fence = FENCE_JSON \/ fence = FENCE -> forallb is_json_ws P = true ->
  py_replace FENCE [] (py_replace FENCE_JSON [] (fence ++ P)) = P.
Proof.
  intros Hf HP. destruct Hf as [-> | ->].
  - rewrite (py_replace_old_app FENCE_JSON [] FENCE_JSON_nonempty). simpl app.
    rewrite (py_replace_fence_ws FENCE_JSON P (or_intror eq_refl) HP).
    exact (py_replace_fence_ws FENCE P (or_introl eq_refl) HP).
  - assert (HJ : py_replace FENCE_JSON [] (FENCE ++ P) = FENCE ++ P).
    { destruct P as [|y P]; [reflexivity|].
      simpl in HP. apply andb_prop in HP as [Hy HP].
      destruct (ws_not_in_fences y Hy) as [Hy1 Hy2].
      rewrite (py_replace_fence_sep FENCE_JSON y FENCE P (or_intror eq_refl) Hy1 Hy2).
      rewrite (py_replace_fence_ws FENCE_JSON P (or_intror eq_refl) HP). reflexivity. }
    rewrite HJ, (py_replace_old_app FENCE [] FENCE_nonempty). simpl app.
    apply py_replace_fence_ws; auto.
Qed.

Lemma clean_core (old m rest : text) :
  old = FENCE \/ old = FENCE_JSON ->
  py_replace old [] (LBRACKET :: m ++ RBRACKET :: rest) =
  LBRACKET :: py_replace old [] m ++ RBRACKET :: py_replace old [] rest.
Proof.
  intros Hold. destruct brackets_not_in_fences as (H1 & H2 & H3 & H4).
  change (LBRACKET :: m ++ RBRACKET :: rest) with ([] ++ LBRACKET :: (m ++ RBRACKET :: rest)).
  rewrite (py_replace_fence_sep old LBRACKET [] _ Hold H1 H2).
  rewrite (py_replace_fence_sep old RBRACKET m rest Hold H3 H4). reflexivity.
Qed.

Lemma clean_reply_wrapped (fence P m Q o1 o2 : text) :
  fence = FENCE_JSON \/ fence = FENCE ->
  forallb is_json_ws P = true -> forallb is_json_ws Q = true ->
  forallb py_isspace o1 = true -> forallb py_isspace o2 = true ->
  clean_reply (o1 ++ (fence ++ P ++ (LBRACKET :: m ++ [RBRACKET]) ++ Q ++ FENCE) ++ o2) =
  P ++ (LBRACKET :: py_replace FENCE [] (py_replace FENCE_JSON [] m) ++ [RBRACKET]) ++ Q.
Proof.
  intros Hf HP HQ Ho1 Ho2. unfold clean_reply.
  assert (HX : fence ++ P ++ (LBRACKET :: m ++ [RBRACKET]) ++ Q ++ FENCE =
               96 :: (tl fence ++ P ++ (LBRACKET :: m ++ [RBRACKET]) ++ Q ++ [96; 96]) ++ [96]).
  { destruct Hf as [-> | ->]; rewrite ?FENCE_JSON_eq, FENCE_eq; simpl tl; app_norm. }
  rewrite HX, py_strip_pad by (reflexivity || assumption). rewrite <- HX.
  replace (fence ++ P ++ (LBRACKET :: m ++ [RBRACKET]) ++ Q ++ FENCE)
    with ((fence ++ P) ++ LBRACKET :: m ++ RBRACKET :: Q ++ FENCE) by app_norm.
  destruct brackets_not_in_fences as (H1 & H2 & H3 & H4).
  rewrite (py_replace_fence_sep FENCE_JSON LBRACKET) by auto.
  rewrite (py_replace_fence_sep FENCE_JSON RBRACKET) by auto.
  rewrite (py_replace_fence_sep FENCE LBRACKET) by auto.
  rewrite (py_replace_fence_sep FENCE RBRACKET) by auto.
  rewrite (clean_opening fence P Hf HP).
  rewrite (py_replace_fence_ws_app FENCE_JSON Q FENCE) by auto.
  rewrite (py_replace_fence_ws_app FENCE Q) by auto.
  change (py_replace FENCE [] (py_replace FENCE_JSON [] FENCE)) with ([] : text).
  rewrite app_nil_r. app_norm.
Qed.

Lemma clean_reply_bare (wa m wb : text) :
  forallb is_json_ws wa = true -> forallb is_json_ws wb = true ->
  clean_reply (wa ++ (LBRACKET :: m ++ [RBRACKET]) ++ wb) =
  LBRACKET :: py_replace FENCE [] (py_replace FENCE_JSON [] m) ++ [RBRACKET].
Proof.
  intros Ha Hb. unfold clean_reply.
  rewrite py_strip_pad by (reflexivity || apply json_ws_py_space; assumption).
  rewrite !clean_core by auto. reflexivity.
Qed.

(** C7: for every text [t] that [json.loads] decodes to a JSON array,
    wrapping [t] in code fences (an opening ```json or ```, JSON white
    space around [t], the closing ```, and any white space outside the
    fences) gives a reply from which the extraction gateway stores the
    same value as from the bare [t]. *)
Theorem fenced_reply_same_store (t : text) (items : list json)
    (fence w1 w2 o1 o2 : text) :
  json_loads t = Some (JArr items) ->
  fence = FENCE_JSON \/ fence = FENCE ->
  forallb is_json_ws w1 = true -> forallb is_json_ws w2 = true ->
  forallb py_isspace o1 = true -> forallb py_isspace o2 = true ->
  extracted_store true (Reply (o1 ++ fence ++ w1 ++ t ++ w2 ++ FENCE ++ o2)) =
  extracted_store true (Reply t).
Proof.
  intros Ht Hf Hw1 Hw2 Ho1 Ho2.
  destruct (json_loads_arr_shape t items Ht) as (wa & m & wb & Ha & Hb & ->).
  replace (o1 ++ fence ++ w1 ++ (wa ++ (LBRACKET :: m ++ [RBRACKET]) ++ wb) ++ w2 ++ FENCE ++ o2)
    with (o1 ++ (fence ++ (w1 ++ wa) ++ (LBRACKET :: m ++ [RBRACKET]) ++ (wb ++ w2) ++ FENCE) ++ o2)
    by app_norm.
  assert (HP : forallb is_json_ws (w1 ++ wa) = true)
    by (rewrite forallb_app, Hw1, Ha; reflexivity).
  assert (HQ : forallb is_json_ws (wb ++ w2) = true)
    by (rewrite forallb_app, Hb, Hw2; reflexivity).
  unfold extracted_store, parse_quiz_file_with_ai. simpl negb. cbv iota.
  rewrite (clean_reply_wrapped fence (w1 ++ wa) m (wb ++ w2) o1 o2 Hf HP HQ Ho1 Ho2).
  rewrite (clean_reply_bare wa m wb Ha Hb).
  rewrite (json_loads_pad (w1 ++ wa) _ (wb ++ w2) HP HQ).
  clear Ht.
  destruct (json_loads (LBRACKET :: py_replace FENCE [] (py_replace FENCE_JSON [] m) ++ [RBRACKET]))
    as [v|]; [destruct (py_len v)|]; reflexivity.
Qed.

Lemma fenced_reply_same_store_witness :
  json_loads (txt "[1]") = Some (JArr [JNum (txt "1")]) /\
  extracted_store true (Reply ([] ++ FENCE_JSON ++ [10] ++ txt "[1]" ++ [10] ++ FENCE ++ [])) =
  extracted_store true (Reply (txt "[1]")).
Proof.
  split; [reflexivity|].
  apply (fenced_reply_same_store (txt "[1]") [JNum (txt "1")] FENCE_JSON [10] [10] [] []);
    [reflexivity | left; reflexivity | reflexivity .. ].
Defined.

Close Scope N_scope.

(** ** The raw-text dump *)

Open Scope N_scope.

(** *** Reading back the output file *)

Lemma scan_escape_char (c : N) (r : text) :
  scan_string (escape_char c ++ r) = cons_str c (scan_string r).
Proof.
  destruct (N.ltb_spec c 32) as [Hlt|Hge].
  - rewrite <- (N2Nat.id c) in *. remember (N.to_nat c) as n eqn:En. clear En.
    assert (Hn : (n < 32)%nat) by lia. clear Hlt.
    do 32 (destruct n as [|n]; [reflexivity|]). lia.
  - unfold escape_char.
    destruct (N.eqb_spec c QUOTE) as [->|Hq]; [reflexivity|].
    destruct (N.eqb_spec c BACKSLASH) as [->|Hb]; [reflexivity|].
    replace (c =? 8) with false by (symmetry; apply N.eqb_neq; lia).
    replace (c =? 12) with false by (symmetry; apply N.eqb_neq; lia).
    replace (c =? 10) with false by (symmetry; apply N.eqb_neq; lia).
    replace (c =? 13) with false by (symmetry; apply N.eqb_neq; lia).
    replace (c =? 9) with false by (symmetry; apply N.eqb_neq; lia).
    replace (c <? 32) with false by (symmetry; apply N.ltb_ge; lia).
    simpl app. cbn [scan_string].
    apply N.eqb_neq in Hq, Hb. rewrite Hq, Hb.
    replace (c <? 32) with false by (symmetry; apply N.ltb_ge; lia). reflexivity.
Qed.

Lemma scan_encoded (x r : text) :
  scan_string (flat_map escape_char x ++ QUOTE :: r) = Some (x, r).
Proof.
  induction x as [|c x IH]; [reflexivity|].
  simpl flat_map. rewrite <- app_assoc, scan_escape_char, IH. reflexivity.
Qed.

Lemma dump_output_data_cons (a b : text) :
  dump_output_data a b =
  LBRACE :: 10 :: 32 :: 32 :: QUOTE ::
  (flat_map escape_char (txt "source_file") ++ QUOTE :: COLON :: 32 :: QUOTE ::
  (flat_map escape_char a ++ QUOTE :: COMMA :: 10 :: 32 :: 32 :: QUOTE ::
  (flat_map escape_char (txt "extracted_text") ++ QUOTE :: COLON :: 32 :: QUOTE ::
  (flat_map escape_char b ++ [QUOTE; 10; RBRACE])))).
Proof. unfold dump_output_data, encode_basestring. app_norm. Qed.

Lemma json_loads_dump (a b : text) :
  json_loads (dump_output_data a b) =
  Some (JObj [(txt "source_file", JStr a); (txt "extracted_text", JStr b)]).
Proof.
  rewrite dump_output_data_cons. unfold json_loads.
  match goal with |- context [parse_value (2 * length ?t)%nat _] =>
    assert (Hl : (5 <= 2 * length t)%nat) by (simpl; lia);
    destruct (2 * length t)%nat as [|[|[|[|[|f]]]]]; try lia
  end.
  cbn -[scan_string flat_map txt].
  rewrite scan_encoded. cbn -[scan_string flat_map txt].
  rewrite scan_encoded. cbn -[scan_string flat_map txt].
  rewrite scan_encoded. cbn -[scan_string flat_map txt].
  rewrite scan_encoded. reflexivity.
Qed.

(** *** [os.path.splitext] *)

Lemma py_rfind_range (c : N) (p : text) : (-1 <= py_rfind c p < Z.of_nat (length p))%Z.
Proof.
  induction p as [|x p IH]; simpl; [lia|].
  destruct (0 <=? py_rfind c p)%Z eqn:E; [lia|].
  destruct (x =? c); lia.
Qed.

Lemma py_rfind_app (c : N) (a b : text) :
  py_rfind c (a ++ b) =
  if (0 <=? py_rfind c b)%Z then (Z.of_nat (length a) + py_rfind c b)%Z else py_rfind c a.
Proof.
  induction a as [|x a IH]; simpl.
  - destruct (0 <=? py_rfind c b)%Z eqn:E; [lia|].
    pose proof (py_rfind_range c b). apply Z.leb_gt in E. lia.
  - rewrite IH. destruct (0 <=? py_rfind c b)%Z eqn:E.
    + apply Z.leb_le in E.
      replace (0 <=? Z.of_nat (length a) + py_rfind c b)%Z with true by (symmetry; apply Z.leb_le; lia).
      lia.
    + reflexivity.
Qed.

Lemma py_rfind_not_in (c : N) (p : text) : ~ In c p -> py_rfind c p = (-1)%Z.
Proof.
  induction p as [|x p IH]; intros H; [reflexivity|].
  simpl. rewrite IH by (intros Hin; apply H; right; exact Hin).
  simpl. destruct (N.eqb_spec x c) as [->|]; [exfalso; apply H; left; reflexivity|reflexivity].
Qed.

Lemma py_rfind_last (c : N) (w : text) : ~ In c w -> py_rfind c (c :: w) = 0%Z.
Proof. intros H. simpl. rewrite py_rfind_not_in by exact H. simpl. rewrite N.eqb_refl. reflexivity. Qed.

(** The last slash of [d ++ rest] is the one [d] ends with, if any. *)
Lemma py_rfind_dir (d rest : text) :
  (d = [] \/ exists d', d = d' ++ [SLASH]) -> ~ In SLASH rest ->
  py_rfind SLASH (d ++ rest) = (Z.of_nat (length d) - 1)%Z.
Proof.
  intros Hd Hr. rewrite py_rfind_app, (py_rfind_not_in SLASH rest Hr). simpl.
  destruct Hd as [->|(d' & ->)]; [reflexivity|].
  rewrite py_rfind_app. cbn [py_rfind]. rewrite N.eqb_refl. simpl.
  rewrite length_app. simpl. lia.
Qed.

Lemma not_in_app_cons (c x : N) (a b : text) :
  ~ In c a -> c <> x -> ~ In c b -> ~ In c (a ++ x :: b).
Proof.
  intros Ha Hx Hb Hin. apply in_app_or in Hin as [Hin|[Hin|Hin]]; auto.
Qed.

(** *** The text of a PDF *)

Lemma page_texts_nonempty (pages : list (option text)) :
  Forall (fun t => t <> []) (page_texts pages).
Proof.
  induction pages as [|[t|] pages IH]; simpl; [constructor| |exact IH].
  destruct t as [|c t]; simpl; [exact IH|]. constructor; [discriminate|exact IH].
Qed.

Lemma py_join_nil (sep : text) (parts : list text) :
  sep <> [] -> Forall (fun t => t <> []) parts -> py_join sep parts = [] <-> parts = [].
Proof.
  intros Hsep Hp. split; [|intros ->; reflexivity].
  destruct parts as [|x [|y rest]]; [reflexivity| |].
  - inversion Hp; subst. simpl. intros E. contradiction.
  - inversion Hp; subst. simpl. intros E.
    apply app_eq_nil in E as [E _]. contradiction.
Qed.

(** *** Properties of [extract_and_save_raw_text] *)

(** Whenever the dump writes its output file, [json.loads] reads the
    written text back as the dict holding the analysed path and the full
    extracted text: the encoding loses nothing, whatever characters the
    path and the text contain. *)
Theorem saved_output_reads_back (env : debug_env) (file_path contents : text) :
  extract_and_save_raw_text env file_path = DSaved contents ->
  exists full_text,
    read_full_text env (snd (py_splitext file_path)) = Some (Some full_text) /\
    json_loads contents =
      Some (JObj [(txt "source_file", JStr file_path); (txt "extracted_text", JStr full_text)]).
Proof.
  unfold extract_and_save_raw_text. destruct (path_exists env); [|discriminate].
  cbv beta iota zeta delta [negb].
  destruct (read_full_text env (snd (py_splitext file_path))) as [[t|]|]; try discriminate.
  destruct (output_opens env && _); [|discriminate].
  intros H. injection H as <-. exists t. split; [reflexivity|apply json_loads_dump].
Qed.

Lemma saved_output_reads_back_witness :
  extract_and_save_raw_text
    (mk_debug_env true (Some [Some (txt "Q1"); None; Some []; Some (txt "Q2")]) None true)
    (txt "tt.pdf") = DSaved (dump_output_data (txt "tt.pdf") (txt "Q1" ++ [10] ++ txt "Q2")) /\
  exists full_text,
    read_full_text
      (mk_debug_env true (Some [Some (txt "Q1"); None; Some []; Some (txt "Q2")]) None true)
      (snd (py_splitext (txt "tt.pdf"))) = Some (Some full_text) /\
    json_loads (dump_output_data (txt "tt.pdf") (txt "Q1" ++ [10] ++ txt "Q2")) =
      Some (JObj [(txt "source_file", JStr (txt "tt.pdf")); (txt "extracted_text", JStr full_text)]).
Proof.
  split; [vm_compute; reflexivity|].
  apply saved_output_reads_back. vm_compute. reflexivity.
Defined.

Lemma page_texts_drop_blank (pages : list (option text)) :
  page_texts (List.filter (fun p => negb (page_blank p)) pages) = page_texts pages.
Proof.
  induction pages as [|[t|] pages IH]; [reflexivity| |exact IH].
  destruct t as [|c t]; simpl; [exact IH|]. rewrite IH. reflexivity.
Qed.

(** The text of a PDF is empty exactly when every page is blank (yields
    no text or the empty one); and blank pages add nothing, not even a
    line break: the text is that of the document with its blank pages
    removed. *)
Theorem pdf_text_empty_iff (pages : list (option text)) :
  (pdf_full_text pages = [] <-> forallb page_blank pages = true) /\
  pdf_full_text (List.filter (fun p => negb (page_blank p)) pages) = pdf_full_text pages.
Proof.
  split; [|unfold pdf_full_text; rewrite page_texts_drop_blank; reflexivity].
  unfold pdf_full_text. rewrite py_join_nil by (discriminate || apply page_texts_nonempty).
  induction pages as [|[t|] pages IH]; simpl; [tauto| |exact IH].
  destruct t as [|c t]; simpl; [exact IH|]. split; discriminate.
Qed.

(** A file whose name is a dot followed by a word without dots (such as
    [.pdf] or [uploads/.PDF]) has no extension for [os.path.splitext], so an
    existing such file is reported as an unsupported type, with the empty
    extension. *)
Theorem dotfile_is_unsupported (env : debug_env) (d w : text) :
  path_exists env = true ->
  (d = [] \/ exists d', d = d' ++ [SLASH]) -> ~ In SLASH w -> ~ In DOT w ->
  extract_and_save_raw_text env (d ++ DOT :: w) = DUnsupported [].
Proof.
  intros He Hd Hs Hw.
  assert (Hsplit : py_splitext (d ++ DOT :: w) = (d ++ DOT :: w, [])).
  { unfold py_splitext.
    rewrite (py_rfind_dir d (DOT :: w) Hd)
      by (intros [H|H]; [discriminate H|exact (Hs H)]).
    rewrite py_rfind_app, (py_rfind_last DOT w Hw). cbn [Z.leb Z.compare].
    replace (Z.of_nat (length d) - 1 <? Z.of_nat (length d) + 0)%Z with true
      by (symmetry; apply Z.ltb_lt; lia).
    replace (Z.to_nat (Z.of_nat (length d) + 0 - (Z.of_nat (length d) - 1 + 1))) with 0%nat by lia.
    reflexivity. }
  unfold extract_and_save_raw_text. rewrite He, Hsplit. reflexivity.
Qed.

Lemma dotfile_is_unsupported_witness :
  extract_and_save_raw_text (mk_debug_env true None None true) (txt "uploads/" ++ DOT :: txt "PDF") =
  DUnsupported [].
Proof.
  apply dotfile_is_unsupported.
  - reflexivity.
  - right. exists (txt "uploads"). reflexivity.
  - vm_compute. intros H. repeat (destruct H as [H|H]; [discriminate H|]). exact H.
  - vm_compute. intros H. repeat (destruct H as [H|H]; [discriminate H|]). exact H.
Defined.

(** [os.path.splitext] splits at the last dot of the last path component
    when a character other than a dot comes before it in that component:
    the extension is that dot and what follows it. *)
Theorem splitext_last_dot (d n w : text) :
  (d = [] \/ exists d', d = d' ++ [SLASH]) -> ~ In SLASH n -> ~ In SLASH w -> ~ In DOT w ->
  existsb (fun c => negb (c =? DOT)) n = true ->
  py_splitext (d ++ n ++ DOT :: w) = (d ++ n, DOT :: w).
Proof.
  intros Hd Hsn Hsw Hw Hn. unfold py_splitext.
  rewrite (py_rfind_dir d (n ++ DOT :: w) Hd)
    by (apply not_in_app_cons; [exact Hsn|discriminate|exact Hsw]).
  rewrite app_assoc, py_rfind_app, (py_rfind_last DOT w Hw). cbn [Z.leb Z.compare].
  rewrite length_app.
  replace (Z.of_nat (length d) - 1 <? Z.of_nat (length d + length n) + 0)%Z with true
    by (symmetry; apply Z.ltb_lt; lia).
  replace (Z.to_nat (Z.of_nat (length d + length n) + 0 - (Z.of_nat (length d) - 1 + 1)))
    with (length n) by lia.
  replace (Z.to_nat (Z.of_nat (length d) - 1 + 1)) with (length d) by lia.
  replace (Z.to_nat (Z.of_nat (length d + length n) + 0)) with (length (d ++ n))
    by (rewrite length_app; lia).
  rewrite <- (app_assoc d n (DOT :: w)), drop_app_length, take_app_length, Hn.
  rewrite (app_assoc d n (DOT :: w)), take_app_length, drop_app_length. reflexivity.
Qed.

Lemma splitext_last_dot_witness :
  py_splitext (txt "uploads/" ++ txt "quiz.v2" ++ DOT :: txt "PDF") =
  (txt "uploads/" ++ txt "quiz.v2", DOT :: txt "PDF").
Proof.
  apply splitext_last_dot.
  - right. exists (txt "uploads"). reflexivity.
  - vm_compute. intros H. repeat (destruct H as [H|H]; [discriminate H|]). exact H.
  - vm_compute. intros H. repeat (destruct H as [H|H]; [discriminate H|]). exact H.
  - vm_compute. intros H. repeat (destruct H as [H|H]; [discriminate H|]). exact H.
  - reflexivity.
Defined.

Close Scope N_scope.

(** ** More of the quiz session and the gateway *)

Lemma score_from_le (a : gmap Z text) (i : Z) (qs : list question_record) :
  (score_from a i qs <= length qs)%nat.
Proof.
  revert i. induction qs as [|q qs IH]; intros i; simpl; [lia|].
  specialize (IH (i + 1)%Z). case_bool_decide; lia.
Qed.

(** The final score (lines 132 and 135) never exceeds the number of
    questions. *)
Theorem score_at_most_questions (s : session) : (score s <= length (questions s))%nat.
Proof. apply score_from_le. Qed.

Lemma review_from_count (a : gmap Z text) (qs : list question_record) (k : nat) :
  length (List.filter fst (review_from a k qs)) =
  (score_from a (Z.of_nat k) qs + unanswered_not_answered_from a (Z.of_nat k) qs)%nat.
Proof.
  revert k. induction qs as [|q qs IH]; intros k; [reflexivity|].
  cbn [review_from score_from unanswered_not_answered_from].
  replace (Z.of_nat k + 1)%Z with (Z.of_nat (S k)) by lia.
  unfold review_entry. cbv zeta.
  destruct (a !! Z.of_nat k) as [x|] eqn:E; simpl default;
    case_bool_decide as H1; simpl; rewrite IH;
    repeat case_bool_decide; first [lia | exfalso; intuition congruence].
Qed.

Lemma review_from_lookup (a : gmap Z text) (k j : nat) (qs : list question_record) :
  review_from a k qs !! j = review_entry a (k + j) <$> qs !! j.
Proof.
  revert k j. induction qs as [|q qs IH]; intros k j; [reflexivity|].
  destruct j as [|j]; simpl.
  - rewrite Nat.add_0_r. reflexivity.
  - rewrite IH. replace (S k + j)%nat with (k + S j)%nat by lia. reflexivity.
Qed.

(** The review (lines 137-144) marks the question at position [j] as
    correct exactly when the score's test holds for it (its stored answer
    is its answer) or it is unanswered and its answer is the text "Not
    Answered": the default used by the review is compared with the answer,
    while the score compares the missing entry itself.  So the number of
    marked questions is the score plus the unanswered "Not Answered"
    questions. *)
Theorem review_marks_score_plus_not_answered (s : session) (j : nat) (q : question_record) :
  questions s !! j = Some q ->
  ((exists md, review s !! j = Some (true, md)) <->
   user_answers s !! Z.of_nat j = Some (answer q) \/
   (user_answers s !! Z.of_nat j = None /\ answer q = NOT_ANSWERED)) /\
  length (List.filter fst (review s)) = (score s + unanswered_not_answered s)%nat.
Proof.
  intros Hq. split; [|apply review_from_count].
  unfold review. rewrite review_from_lookup, Hq. simpl.
  unfold review_entry. cbv zeta.
  destruct (user_answers s !! Z.of_nat j) as [x|] eqn:E; simpl default;
    case_bool_decide as H1; split.
  - intros _. left. congruence.
  - intros _. eexists. reflexivity.
  - intros [md Hmd]. discriminate Hmd.
  - intros [Hx|[Hx _]]; [congruence|discriminate Hx].
  - intros _. right. split; [reflexivity|congruence].
  - intros _. eexists. reflexivity.
  - intros [md Hmd]. discriminate Hmd.
  - intros [Hx|[_ Hx]]; [discriminate Hx|congruence].
Qed.

Lemma review_marks_score_plus_not_answered_witness :
  let s := mk_session Finished [two_plus_two; mk_question (txt "?") [txt "Not Answered"] NOT_ANSWERED]
             1%Z (<[0%Z := txt "3"]> ∅) in
  ((exists md, review s !! 1%nat = Some (true, md)) <->
   user_answers s !! Z.of_nat 1 = Some NOT_ANSWERED \/
   (user_answers s !! Z.of_nat 1 = None /\ NOT_ANSWERED = NOT_ANSWERED)) /\
  length (List.filter fst (review s)) = (score s + unanswered_not_answered s)%nat.
Proof.
  intros s.
  apply (review_marks_score_plus_not_answered s 1 (mk_question (txt "?") [txt "Not Answered"] NOT_ANSWERED)).
  reflexivity.
Defined.

Lemma py_lstrip_all_space (o : text) : forallb py_isspace o = true -> py_lstrip o = [].
Proof.
  intros H. rewrite <- (app_nil_r o), py_lstrip_space_app by exact H. reflexivity.
Qed.

Lemma py_lstrip_app (x y : text) :
  py_lstrip (x ++ y) = if forallb py_isspace x then py_lstrip y else py_lstrip x ++ y.
Proof.
  induction x as [|c x IH]; [reflexivity|].
  simpl. destruct (py_isspace c); simpl; [exact IH|reflexivity].
Qed.

Lemma py_rstrip_space_app (y o : text) :
  forallb py_isspace o = true -> py_rstrip (y ++ o) = py_rstrip y.
Proof.
  intros H. unfold py_rstrip. rewrite rev_app_distr, py_lstrip_space_app; [reflexivity|].
  rewrite forallb_rev_N. exact H.
Qed.

Lemma py_strip_pad_any (o1 raw o2 : text) :
  forallb py_isspace o1 = true -> forallb py_isspace o2 = true ->
  py_strip (o1 ++ raw ++ o2) = py_strip raw.
Proof.
  intros H1 H2. unfold py_strip. rewrite py_lstrip_space_app by exact H1.
  rewrite py_lstrip_app. destruct (forallb py_isspace raw) eqn:E.
  - rewrite (py_lstrip_all_space o2 H2), (py_lstrip_all_space raw E). reflexivity.
  - apply py_rstrip_space_app. exact H2.
Qed.

(** White space (in the sense of [str.strip]) before or after the reply
    does not change the value the gateway returns. *)
Theorem gateway_ignores_surrounding_space (configured : bool) (raw o1 o2 : text) :
  forallb py_isspace o1 = true -> forallb py_isspace o2 = true ->
  extracted_store configured (Reply (o1 ++ raw ++ o2)) = extracted_store configured (Reply raw).
Proof.
  intros H1 H2. unfold extracted_store, parse_quiz_file_with_ai, clean_reply.
  rewrite (py_strip_pad_any o1 raw o2 H1 H2).
  destruct configured; [|reflexivity]. simpl negb. cbv iota zeta.
  destruct (json_loads _) as [v|]; [destruct (py_len v)|]; reflexivity.
Qed.

Lemma gateway_ignores_surrounding_space_witness :
  extracted_store true (Reply ([32; 10] ++ txt "[1]" ++ [12; 12288])%N) =
  extracted_store true (Reply (txt "[1]")).
Proof. apply gateway_ignores_surrounding_space; reflexivity. Defined.


(** On the feedback screen of a reachable session, an answer is stored
    for the current question and the disabled radio button (lines 183-187)
    preselects exactly that answer. *)
Theorem feedback_radio_shows_stored_answer (s : session) :
  reachable s -> state s = ShowFeedback ->
  exists a, user_answers s !! current_question s = Some a /\ feedback_radio_shows s = Some a.
Proof.
  intros Hr Hst. destruct (reachable_session_inv s Hr) as (_ & _ & Hfb & Hans).
  destruct (Hfb Hst) as [a Ha]. exists a. split; [exact Ha|].
  destruct (Hans _ _ Ha) as (q & Hq & Hin).
  unfold feedback_radio_shows. rewrite Hq. unfold feedback_default_index. cbv zeta.
  rewrite Ha. simpl default.
  destruct (py_list_index_elem a (valid_options q) Hin) as (k & Hk & Hl).
  rewrite Hk. exact Hl.
Qed.

Lemma feedback_radio_shows_stored_answer_witness :
  exists a, user_answers scenario_after_submit !! current_question scenario_after_submit = Some a /\
            feedback_radio_shows scenario_after_submit = Some a.
Proof.
  apply feedback_radio_shows_stored_answer.
  - apply scenario_after_submit_reachable.
  - reflexivity.
Defined.

(** On the question screen of a reachable session, the radio button
    (lines 173-175) preselects the stored answer of the current question,
    or the first non-empty option when none is stored. *)
Theorem question_radio_preselects (s : session) :
  reachable s -> state s = QuizStarted ->
  exists q, py_index (questions s) (current_question s) = Some q /\
    preselected_answer s = match user_answers s !! current_question s with
                           | Some a => Some a
                           | None => head (valid_options q)
                           end.
Proof.
  intros Hr Hst. destruct (reachable_session_inv s Hr) as (_ & Hb & _ & Hans).
  destruct (py_index_in_bounds (questions s) (current_question s)) as [q Hq];
    [apply Hb; congruence|].
  exists q. split; [exact Hq|].
  unfold preselected_answer. rewrite Hq. unfold previous_answer_index. cbv zeta.
  destruct (user_answers s !! current_question s) as [a|] eqn:Ha.
  - destruct (Hans _ _ Ha) as (q' & Hq' & Hin). rewrite Hq in Hq'. injection Hq' as <-.
    rewrite (existsb_eq_elem a (valid_options q) Hin).
    destruct (py_list_index_elem a (valid_options q) Hin) as (k & Hk & Hl).
    rewrite Hk. exact Hl.
  - destruct (valid_options q); reflexivity.
Qed.

Lemma question_radio_preselects_witness :
  exists q, py_index (questions scenario_after_upload) (current_question scenario_after_upload) = Some q /\
    preselected_answer scenario_after_upload =
      match user_answers scenario_after_upload !! current_question scenario_after_upload with
      | Some a => Some a
      | None => head (valid_options q)
      end.
Proof.
  apply question_radio_preselects.
  - apply (reachable_step init_session (EUpload [two_plus_two])); [apply reachable_init|].
    apply step_upload. reflexivity.
  - reflexivity.
Defined.

Lemma score_from_full (a : gmap Z text) (qs : list question_record) :
  forall k, score_from a k qs = length qs <->
  (forall j q, qs !! j = Some q -> a !! (k + Z.of_nat j)%Z = Some (answer q)).
Proof.
  induction qs as [|q qs IH]; intros k; simpl.
  - split; [intros _ j q H; rewrite lookup_nil in H; discriminate|reflexivity].
  - pose proof (score_from_le a (k + 1)%Z qs) as Hle.
    case_bool_decide as Hk.
    + rewrite Nat.add_1_l. split.
      * intros E. assert (E' : score_from a (k + 1)%Z qs = length qs) by lia.
        intros [|j] q' Hj; simpl in Hj.
        -- injection Hj as <-. rewrite Z.add_0_r. exact Hk.
        -- replace (k + Z.of_nat (S j))%Z with (k + 1 + Z.of_nat j)%Z by lia.
           exact (proj1 (IH (k + 1)%Z) E' j q' Hj).
      * intros H. f_equal. apply (proj2 (IH (k + 1)%Z)).
        intros j q' Hj. replace (k + 1 + Z.of_nat j)%Z with (k + Z.of_nat (S j))%Z by lia.
        exact (H (S j) q' Hj).
    + split; [lia|]. intros H. exfalso. apply Hk.
      specialize (H 0%nat q eq_refl). rewrite Z.add_0_r in H. exact H.
Qed.

(** The score equals the number of questions exactly when every question
    has its correct answer stored. *)
Theorem perfect_score_iff (s : session) :
  score s = length (questions s) <->
  (forall j q, questions s !! j = Some q -> user_answers s !! Z.of_nat j = Some (answer q)).
Proof.
  unfold score. rewrite (score_from_full (user_answers s) (questions s) 0%Z).
  split; intros H j q Hj; specialize (H j q Hj); [rewrite Z.add_0_l in H|rewrite Z.add_0_l]; exact H.
Qed.

Open Scope N_scope.

(** When no paragraph of a DOCX holds a line break, splitting its text on
    line breaks gives back the paragraphs, empty ones included; a document
    without paragraphs gives one empty line, as one with a single empty
    paragraph does. *)
Theorem docx_paragraphs_recoverable (ps : list text) :
  Forall (fun p => ~ In 10 p) ps ->
  split_on 10 (docx_full_text ps) = match ps with [] => [[]] | _ => ps end.
Proof.
  unfold docx_full_text. intros Hps.
  induction Hps as [|x ps Hx Hps IH]; [reflexivity|].
  destruct ps as [|y ps].
  - simpl. apply split_on_no_sep. exact Hx.
  - change (py_join [10] (x :: y :: ps)) with (x ++ 10 :: py_join [10] (y :: ps)).
    rewrite split_on_sep by exact Hx. rewrite IH. reflexivity.
Qed.

Lemma docx_paragraphs_recoverable_witness :
  split_on 10 (docx_full_text [txt "Q1"; []; txt "a) 4"]) = [txt "Q1"; []; txt "a) 4"].
Proof.
  apply (docx_paragraphs_recoverable [txt "Q1"; []; txt "a) 4"]).
  repeat constructor; vm_compute; intros H; repeat (destruct H as [H|H]; [discriminate H|]); exact H.
Defined.

Lemma parse_value_bom (f : nat) (x : text) : parse_value f (BOM :: x) = None.
Proof. destruct f; reflexivity. Qed.

(** [json.loads] gives the same result when JSON white space (space, tab,
    line feed, carriage return) is added before or after its input. *)
Theorem json_loads_ignores_ws (P t Q : text) :
  forallb is_json_ws P = true -> forallb is_json_ws Q = true ->
  json_loads (P ++ t ++ Q) = json_loads t.
Proof.
  intros HP HQ. unfold json_loads.
  destruct (is_prefix [BOM] t) eqn:Hb.
  - destruct t as [|b t]; [discriminate|].
    cbn [is_prefix] in Hb. rewrite andb_true_r in Hb. apply N.eqb_eq in Hb as <-.
    destruct (is_prefix [BOM] _); [reflexivity|].
    rewrite (skip_ws_ws_app P _ HP). simpl skip_ws. cbv zeta. rewrite parse_value_bom. reflexivity.
  - replace (is_prefix [BOM] (P ++ t ++ Q)) with false.
    2:{ destruct P as [|p P].
        - destruct t as [|x t].
          + destruct Q as [|q Q]; [reflexivity|].
            simpl in HQ |- *. apply andb_prop in HQ as [Hq _]. ws_cases q Hq; reflexivity.
          + cbn [is_prefix app] in Hb |- *. exact (eq_sym Hb).
        - simpl in HP |- *. apply andb_prop in HP as [Hp _]. ws_cases p Hp; reflexivity. }
    cbv zeta. rewrite (skip_ws_ws_app P _ HP), (skip_ws_app_ws Q HQ t).
    destruct (skip_ws t) as [|c u] eqn:Et; [reflexivity|].
    change (c :: u ++ Q) with ((c :: u) ++ Q).
    rewrite (parse_value_app_ws Q HQ).
    rewrite (parse_value_fuel_stable (c :: u) (2 * length ((c :: u) ++ Q)))
      by (rewrite length_app; lia).
    destruct (parse_value (2 * length (c :: u)) (c :: u)) as [[v r]|]; [|reflexivity].
    cbv beta iota delta [app_rest]. rewrite (skip_ws_app_ws Q HQ r).
    destruct (skip_ws r); reflexivity.
Qed.

Lemma json_loads_ignores_ws_witness :
  json_loads ([32; 10] ++ txt "[1]" ++ [13; 9]) = json_loads (txt "[1]").
Proof. apply json_loads_ignores_ws; reflexivity. Defined.

Close Scope N_scope.
